(** * Orchestration core of ERP-AI-Agents: teams, workflows, agent registry

    A shallow embedding of
    - [packages/agent_framework/agent_framework/team.py]
      ([Team.execute] and its five strategy handlers),
    - [services/orchestration_engine/orchestration_engine/agent_manager.py]
      ([AgentManager.register_agent], [get_agent], [get_agent_url]),
    - [services/orchestration_engine/orchestration_engine/workflow_manager.py]
      ([WorkflowManager.execute_workflow], [get_workflow_status] and the
      private store helpers),
    followed by the properties the specification states about them.

    Conventions.  Python dictionaries whose iteration order is observable
    ([agent_results], [outputs], task payloads) are association lists kept in
    insertion order; dictionaries used as plain maps (the agent registries,
    the [workflows] table keyed by its primary key) are [gmap]s.  A Python
    call that may raise returns [exn + A].  Wall-clock fields
    ([execution_time_ms], [timestamp], durations) are left out: nothing
    below depends on them. *)

From Stdlib Require Import ZArith String List.
From stdpp Require Import base option list sorting gmap strings fin_maps.

Set Warnings "-register-all".

Local Open Scope string_scope.
Local Open Scope Z_scope.

(** ** Python values *)

(** The JSON-like values that flow through task payloads, agent outputs and
    agent metadata ([Dict[str, Any]] in the source). *)
Inductive pyval : Type :=
| PNone
| PBool (b : bool)
| PInt (z : Z)
| PStr (s : string)
| PList (l : list pyval)
| PDict (d : list (string * pyval)).

(** An insertion-ordered dictionary with string keys. *)
Definition pydict (V : Type) : Type := list (string * V).

(** [Dict[str, Any]]. *)
Abbreviation pyd := (pydict pyval).

Section Dict.
Context {V : Type}.

(** [d.get(k)] *)
Fixpoint dict_get (k : string) (d : pydict V) : option V :=
  match d with
  | [] => None
  | (k', v) :: d' => if String.eqb k' k then Some v else dict_get k d'
  end.

(** [d[k] = v]: an existing key keeps its position, a new key goes last. *)
Fixpoint dict_set (k : string) (v : V) (d : pydict V) : pydict V :=
  match d with
  | [] => [(k, v)]
  | (k', v') :: d' =>
      if String.eqb k' k then (k', v) :: d' else (k', v') :: dict_set k v d'
  end.

(** [list(d.keys())] *)
Definition dict_keys (d : pydict V) : list string := map fst d.
End Dict.

(** Python truthiness, as used by [if x:], [not x] and [x or y]. *)
Definition truthy (v : pyval) : bool :=
  match v with
  | PNone => false
  | PBool b => b
  | PInt z => negb (z =? 0)%Z
  | PStr s => negb (String.eqb s "")
  | PList l => match l with [] => false | _ => true end
  | PDict d => match d with [] => false | _ => true end
  end.

(** ** Exceptions *)

(** The [Exception] instances that occur in the embedded code.  [KeyError]
    comes from [self.members[...]], [ValueError] from [max] on an empty list,
    from the unknown-strategy branch and from [response.json()] on a body
    that is not JSON; [RequestError] and [HTTPStatusError] are the two
    unrelated subclasses of [httpx.HTTPError]; [Raised] is whatever an
    agent's [execute] raises. *)
Inductive exn : Type :=
| KeyError (key : string)
| ValueError (msg : string)
| RequestError (msg : string)
| HTTPStatusError (msg : string)
| Raised (msg : string).

(** [str(e)] *)
Definition exn_str (e : exn) : string :=
  match e with
  | KeyError k => "'" +:+ k +:+ "'"
  | ValueError m => m
  | RequestError m => m
  | HTTPStatusError m => m
  | Raised m => m
  end.

(** ** Python builtins used by the strategies *)

Section Builtins.
Context {A : Type} (key : A → Z).

(** One insertion step of a stable descending sort: [x] stood before every
    element of [l] in the input, so it goes in front of the first element
    whose key is not larger than its own. *)
Fixpoint insert_desc (x : A) (l : list A) : list A :=
  match l with
  | [] => [x]
  | y :: l' => if (key x <? key y)%Z then y :: insert_desc x l' else x :: y :: l'
  end.

(** [sorted(l, key=key, reverse=True)].  Python's sort is stable also with
    [reverse=True]: elements with equal keys keep their input order. *)
Fixpoint py_sorted_desc (l : list A) : list A :=
  match l with
  | [] => []
  | x :: l' => insert_desc x (py_sorted_desc l')
  end.

Fixpoint py_max_from (best : A) (l : list A) : A :=
  match l with
  | [] => best
  | x :: l' => if (key best <? key x)%Z then py_max_from x l' else py_max_from best l'
  end.

(** [max(l, key=key)]: the first maximal element; raises [ValueError] on an
    empty list. *)
Definition py_max (l : list A) : exn + A :=
  match l with
  | [] => inl (ValueError "max() arg is an empty sequence")
  | x :: l' => inr (py_max_from x l')
  end.
End Builtins.

(** ** team.py: data model *)

Inductive TeamStrategy : Type :=
| SEQUENTIAL | PARALLEL | CONSENSUS | LEADER_FOLLOWER | PIPELINE.

(** The value stored in [TeamConfiguration.strategy].  The dataclass does not
    validate the field, so besides the five enum members it can hold a value
    that is no [TeamStrategy] at all.  [NotAStrategy v] is such a value that
    still has a [.value] attribute (a member of another enum, say), so that
    the log line in front of the [try] block goes through; [v] is its
    [str()]. *)
Inductive strategy_value : Type :=
| Strategy (s : TeamStrategy)
| NotAStrategy (v : string).

Record TeamMember : Type := {
  agent_id : string;
  role : string;
  priority : Z;
  required : bool
}.

Record TeamConfiguration : Type := {
  team_id : string;
  members : list TeamMember;
  strategy : strategy_value;
  shared_context : pyd
}.

Module AgentResult.
Record t : Type := {
  status : string;
  outputs : pyd;
  error : option string
}.
End AgentResult.

Module TeamResult.
Record t : Type := {
  team_id : string;
  status : string;
  outputs : pyd;
  agent_results : pydict AgentResult.t;
  metadata : pyd;
  error : option string;
  agents_executed : nat
}.
End TeamResult.

(** ** Effects *)

(** A computation over a mutable state [S] that returns a value or raises. *)
Definition M (S A : Type) : Type := S → (exn + A) * S.

Definition ret {S A : Type} (a : A) : M S A := λ st, (inr a, st).

Definition raise {S A : Type} (e : exn) : M S A := λ st, (inl e, st).

Definition bind {S A B : Type} (m : M S A) (k : A → M S B) : M S B :=
  λ st, match m st with
        | (inr a, st') => k a st'
        | (inl e, st') => (inl e, st')
        end.

(** [try: body / except C as e: handler e], where [catches e] tells whether
    [e] is an instance of [C]. *)
Definition try_except {S A : Type} (catches : exn → bool) (body : M S A)
    (handler : exn → M S A) : M S A :=
  λ st, match body st with
        | (inr a, st') => (inr a, st')
        | (inl e, st') => if catches e then handler e st' else (inl e, st')
        end.

(** [except Exception]: every exception of the model is an [Exception]. *)
Definition any_exception (e : exn) : bool := true.

(** The outcome of a statement whose exceptions of class [catches] are
    handled by the enclosing [try]. *)
Definition attempt {S A : Type} (catches : exn → bool) (m : M S A) : M S (exn + A) :=
  try_except catches (bind m (λ a, ret (inr a))) (λ e, ret (inl e)).

(** A Python expression that touches no state. *)
Definition lift {S A : Type} (r : exn + A) : M S A := λ st, (r, st).

Notation "'let*' x ':=' m 'in' k" := (bind m (λ x, k))
  (at level 10, x name, m at level 100, k at level 200).

(** ** The state of a team run *)

(** One call of [agent.execute(task, context)] as seen from the team. *)
Record Invocation : Type := {
  inv_agent : string;
  inv_input : pyd;
  inv_outcome : exn + AgentResult.t
}.

(** What a run mutates: [self.context.shared_data], and, for the sake of the
    properties about invocation order, the calls issued so far. *)
Record RunState : Type := {
  shared_data : pyd;
  invocations : list Invocation
}.

(** An agent is its [execute] method: given the task and the shared data it
    returns an [AgentResult] or raises, and may write to the shared data. *)
Definition Agent : Type := pyd → pyd → (exn + AgentResult.t) * pyd.

Record Team : Type := {
  config : TeamConfiguration;
  (** [self.members]: the agent instances loaded by [_load_members] *)
  loaded : gmap string Agent
}.

Module AgentRegistry.
(** [AgentRegistry.register_agent], with the agent's id made explicit *)
Definition register_agent (agents : gmap string Agent) (id : string) (a : Agent)
    : gmap string Agent := <[id := a]> agents.

(** [AgentRegistry.get_agent] *)
Definition get_agent (agents : gmap string Agent) (id : string) : exn + Agent :=
  match agents !! id with
  | None => inl (ValueError ("Agent not found: " +:+ id))
  | Some a => inr a
  end.
End AgentRegistry.

(** [Team._load_members] *)
Fixpoint _load_members (registry : gmap string Agent) (ms : list TeamMember)
    (acc : gmap string Agent) : exn + gmap string Agent :=
  match ms with
  | [] => inr acc
  | member :: rest =>
      match AgentRegistry.get_agent registry (agent_id member) with
      | inr agent => _load_members registry rest (<[agent_id member := agent]> acc)
      | inl e => if required member then inl e else _load_members registry rest acc
      end
  end.

(** [Team.__init__] *)
Definition new_team (cfg : TeamConfiguration) (registry : gmap string Agent) : exn + Team :=
  match _load_members registry (members cfg) ∅ with
  | inl e => inl e
  | inr ms => inr {| config := cfg; loaded := ms |}
  end.

(** [self.context.shared_data[k] = v] *)
Definition set_shared (k : string) (v : pyval) : M RunState unit :=
  λ st, (inr tt, {| shared_data := dict_set k v (shared_data st);
                    invocations := invocations st |}).

(** [self.context.shared_data] *)
Definition get_shared : M RunState pyd := λ st, (inr (shared_data st), st).

(** [await agent.execute(input, self.context)] for the agent of member [id]. *)
Definition invoke (agent : Agent) (id : string) (input : pyd) : M RunState AgentResult.t :=
  λ st, let '(o, sd) := agent input (shared_data st) in
        (o, {| shared_data := sd;
               invocations := invocations st ++
                 [{| inv_agent := id; inv_input := input; inv_outcome := o |}] |}).

(** [self.members[id]] *)
Definition member_agent (t : Team) (id : string) : M RunState Agent :=
  lift match loaded t !! id with
       | Some a => inr a
       | None => inl (KeyError id)
       end.

(** [TeamResult(team_id=..., status=..., outputs=..., ...)]; the fields a
    call site leaves out take the dataclass defaults. *)
Definition mk_result (t : Team) (status : string) (outputs : pyd)
    (agent_results : pydict AgentResult.t) (metadata : pyd)
    (error : option string) : TeamResult.t :=
  {| TeamResult.team_id := team_id (config t);
     TeamResult.status := status;
     TeamResult.outputs := outputs;
     TeamResult.agent_results := agent_results;
     TeamResult.metadata := metadata;
     TeamResult.error := error;
     TeamResult.agents_executed := 0 |}.

(** [f"{x}"] for an [Optional[str]] *)
Definition str_opt (o : option string) : string := default "None" o.

(** ** team.py: the strategies *)

(** The [for member in sorted_members] loop of [_execute_sequential]; a
    [return] inside the loop is a branch that does not go on with [rest]. *)
Fixpoint sequential_loop (t : Team) (task : pyd) (ms : list TeamMember)
    (agent_results : pydict AgentResult.t) (outputs : pyd) : M RunState TeamResult.t :=
  match ms with
  | [] =>
      let* shared := get_shared in
      ret (mk_result t "success" outputs agent_results
             [("shared_context", PDict shared)] None)
  | member :: rest =>
      let* agent := member_agent t (agent_id member) in
      let* outcome := attempt any_exception (invoke agent (agent_id member) task) in
      match outcome with
      | inr result =>
          let agent_results := dict_set (agent_id member) result agent_results in
          if String.eqb (AgentResult.status result) "success" then
            let outputs :=
              dict_set (agent_id member) (PDict (AgentResult.outputs result)) outputs in
            let* _ := set_shared (agent_id member +:+ "_output")
                        (PDict (AgentResult.outputs result)) in
            sequential_loop t task rest agent_results outputs
          else if required member then
            ret (mk_result t "error" outputs agent_results []
                   (Some ("Required agent " +:+ agent_id member +:+ " failed: "
                          +:+ str_opt (AgentResult.error result))))
          else sequential_loop t task rest agent_results outputs
      | inl e =>
          if required member then
            ret (mk_result t "error" outputs agent_results []
                   (Some ("Required agent " +:+ agent_id member +:+ " error: "
                          +:+ exn_str e)))
          else sequential_loop t task rest agent_results outputs
      end
  end.

Definition _execute_sequential (t : Team) (task : pyd) : M RunState TeamResult.t :=
  let sorted_members := py_sorted_desc priority (members (config t)) in
  sequential_loop t task sorted_members [] [].

(** The [for member in self.config.members] loop of [_execute_parallel]. *)
Fixpoint parallel_loop (t : Team) (task : pyd) (ms : list TeamMember)
    (agent_results : pydict AgentResult.t) (outputs : pyd) : M RunState TeamResult.t :=
  match ms with
  | [] => ret (mk_result t "success" outputs agent_results [] None)
  | member :: rest =>
      let* agent := member_agent t (agent_id member) in
      let* outcome := attempt any_exception (invoke agent (agent_id member) task) in
      match outcome with
      | inr result =>
          let agent_results := dict_set (agent_id member) result agent_results in
          if String.eqb (AgentResult.status result) "success" then
            parallel_loop t task rest agent_results
              (dict_set (agent_id member) (PDict (AgentResult.outputs result)) outputs)
          else parallel_loop t task rest agent_results outputs
      | inl e =>
          if required member then
            ret (mk_result t "error" outputs agent_results [] (Some (exn_str e)))
          else parallel_loop t task rest agent_results outputs
      end
  end.

Definition _execute_parallel (t : Team) (task : pyd) : M RunState TeamResult.t :=
  parallel_loop t task (members (config t)) [] [].

(** The body of the inner loop of [_aggregate_outputs]:
    [if key not in aggregated: aggregated[key] = []] and then
    [aggregated[key].append(value)]. *)
Definition aggregate_item (aggregated : pyd) (item : string * pyval) : pyd :=
  let aggregated :=
    match dict_get item.1 aggregated with
    | None => dict_set item.1 (PList []) aggregated
    | Some _ => aggregated
    end in
  match dict_get item.1 aggregated with
  | Some (PList l) => dict_set item.1 (PList (l ++ [item.2])) aggregated
  | _ => aggregated
  end.

Definition _aggregate_outputs (agent_results : pydict AgentResult.t) : pyd :=
  fold_left
    (λ aggregated entry,
       if String.eqb (AgentResult.status entry.2) "success"
       then fold_left aggregate_item (AgentResult.outputs entry.2) aggregated
       else aggregated)
    agent_results [].

Definition _execute_consensus (t : Team) (task : pyd) : M RunState TeamResult.t :=
  let* parallel_result := _execute_parallel t task in
  let consensus_output := _aggregate_outputs (TeamResult.agent_results parallel_result) in
  ret {| TeamResult.team_id := TeamResult.team_id parallel_result;
         TeamResult.status := TeamResult.status parallel_result;
         TeamResult.outputs :=
           dict_set "consensus" (PDict consensus_output)
             (TeamResult.outputs parallel_result);
         TeamResult.agent_results := TeamResult.agent_results parallel_result;
         TeamResult.metadata := TeamResult.metadata parallel_result;
         TeamResult.error := TeamResult.error parallel_result;
         TeamResult.agents_executed := TeamResult.agents_executed parallel_result |}.

(** The [for follower in followers] loop of [_execute_leader_follower]. *)
Fixpoint follower_loop (t : Team) (task : pyd) (followers : list TeamMember)
    (agent_results : pydict AgentResult.t) : M RunState (pydict AgentResult.t) :=
  match followers with
  | [] => ret agent_results
  | follower :: rest =>
      let* agent := member_agent t (agent_id follower) in
      let* result := invoke agent (agent_id follower) task in
      follower_loop t task rest (dict_set (agent_id follower) result agent_results)
  end.

Definition _execute_leader_follower (t : Team) (task : pyd) : M RunState TeamResult.t :=
  let* leader := lift (py_max priority (members (config t))) in
  let followers :=
    List.filter (λ m, negb (String.eqb (agent_id m) (agent_id leader)))
      (members (config t)) in
  let* leader_agent := member_agent t (agent_id leader) in
  let* leader_result := invoke leader_agent (agent_id leader) task in
  let agent_results := dict_set (agent_id leader) leader_result [] in
  if negb (String.eqb (AgentResult.status leader_result) "success") then
    ret (mk_result t "error" [] agent_results []
           (Some ("Leader " +:+ agent_id leader +:+ " failed")))
  else
    let* _ := set_shared "leader_output" (PDict (AgentResult.outputs leader_result)) in
    let* agent_results := follower_loop t task followers agent_results in
    ret (mk_result t "success"
           [("leader", PDict (AgentResult.outputs leader_result))]
           agent_results [] None).

(** The [for member in sorted_members] loop of [_execute_pipeline]. *)
Fixpoint pipeline_loop (t : Team) (ms : list TeamMember) (current_input : pyd)
    (agent_results : pydict AgentResult.t) : M RunState TeamResult.t :=
  match ms with
  | [] => ret (mk_result t "success" current_input agent_results [] None)
  | member :: rest =>
      let* agent := member_agent t (agent_id member) in
      let* result := invoke agent (agent_id member) current_input in
      let agent_results := dict_set (agent_id member) result agent_results in
      if negb (String.eqb (AgentResult.status result) "success") then
        if required member then
          ret (mk_result t "error" [] agent_results []
                 (Some ("Pipeline broken at " +:+ agent_id member)))
        else pipeline_loop t rest current_input agent_results
      else pipeline_loop t rest (AgentResult.outputs result) agent_results
  end.

Definition _execute_pipeline (t : Team) (task : pyd) : M RunState TeamResult.t :=
  let sorted_members := py_sorted_desc priority (members (config t)) in
  pipeline_loop t sorted_members task [].

(** ** team.py: [Team.execute] *)

(** The body of the [try] block: dispatch on the configured strategy. *)
Definition dispatch (t : Team) (task : pyd) : M RunState TeamResult.t :=
  match strategy (config t) with
  | Strategy SEQUENTIAL => _execute_sequential t task
  | Strategy PARALLEL => _execute_parallel t task
  | Strategy CONSENSUS => _execute_consensus t task
  | Strategy LEADER_FOLLOWER => _execute_leader_follower t task
  | Strategy PIPELINE => _execute_pipeline t task
  | NotAStrategy v => raise (ValueError ("Unknown strategy: " +:+ v))
  end.

(** [result.agents_executed = len(result.agent_results)] *)
Definition count_agents (r : TeamResult.t) : TeamResult.t :=
  {| TeamResult.team_id := TeamResult.team_id r;
     TeamResult.status := TeamResult.status r;
     TeamResult.outputs := TeamResult.outputs r;
     TeamResult.agent_results := TeamResult.agent_results r;
     TeamResult.metadata := TeamResult.metadata r;
     TeamResult.error := TeamResult.error r;
     TeamResult.agents_executed := length (TeamResult.agent_results r) |}.

(** [Team.execute], run on the state it starts from.  The shared context is a
    copy of the configured seed.  [join_team] and [leave_team] only touch the
    agents' own bookkeeping fields and are not part of the model. *)
Definition execute_m (t : Team) (task : pyd) : M RunState TeamResult.t :=
  let* result :=
    try_except any_exception (dispatch t task)
      (λ e, ret (mk_result t "error" [] [] [] (Some (exn_str e)))) in
  ret (count_agents result).

Definition initial_state (t : Team) : RunState :=
  {| shared_data := shared_context (config t); invocations := [] |}.

Definition execute (t : Team) (task : pyd) : (exn + TeamResult.t) * RunState :=
  execute_m t task (initial_state t).

(** ** agent_manager.py *)

Module AgentManager.
(** [AgentManager.register_agent]: [self.agents[agent_id] = agent_metadata] *)
Definition register_agent (agents : gmap string pyd) (agent_id : string)
    (agent_metadata : pyd) : gmap string pyd :=
  <[agent_id := agent_metadata]> agents.

(** [AgentManager.get_agent]: [self.agents.get(agent_id)] *)
Definition get_agent (agents : gmap string pyd) (agent_id : string) : option pyd :=
  agents !! agent_id.

(** [os.getenv(name, default)] *)
Definition getenv (env : gmap string string) (name default_value : string) : string :=
  default default_value (env !! name).

(** [x or y] *)
Definition py_or (x y : pyval) : pyval := if truthy x then x else y.

(** [AgentManager.get_agent_url].  The result is a Python value: [PNone] is
    the [None] of the source.  [not agent_info] holds for a missing entry and
    also for an entry whose metadata dictionary is empty. *)
Definition get_agent_url (env : gmap string string) (agents : gmap string pyd)
    (agent_id : string) : pyval :=
  match agents !! agent_id with
  | None => PNone
  | Some agent_info =>
      if negb (truthy (PDict agent_info)) then PNone
      else py_or (default PNone (dict_get "url" agent_info))
                 (PStr (getenv env "GENERIC_AGENT_URL" "http://generic-agent:5000"))
  end.

(** [AgentManager.list_agents] up to order *)
Definition list_agents (agents : gmap string pyd) : gset string := dom agents.
End AgentManager.

(** ** database.py and workflow_manager.py: data model *)

Module Task.
(** An element of the [tasks] document of a workflow. *)
Record t : Type := {
  agent_id : string;
  task_details : pyval
}.
End Task.

Module Workflow.
(** A row of the [workflows] table.  The two JSON text columns are held as
    the documents they serialise; [results = None] is a NULL or empty text. *)
Record t : Type := {
  id : string;
  name : string;
  tasks : list Task.t;
  status : string;
  results : option (list pyval);
  user_id : Z
}.

Definition with_status (s : string) (w : t) : t :=
  {| id := id w; name := name w; tasks := tasks w; status := s;
     results := results w; user_id := user_id w |}.

Definition with_results (r : list pyval) (w : t) : t :=
  {| id := id w; name := name w; tasks := tasks w; status := status w;
     results := Some r; user_id := user_id w |}.
End Workflow.

(** The [workflows] table, keyed by its primary key. *)
Abbreviation Store := (gmap string Workflow.t).

(** What the outside can see of a run of the workflow manager, in order. *)
Inductive Event : Type :=
| Committed (after : Store)
    (** a session commit, with the table as it stands afterwards *)
| HttpPost (agent_url : pyval) (payload : pyval)
    (** [client.post(f"{agent_url}/execute", json=payload, timeout=60)] *)
| Analytics (event_type : string) (workflow_id : string)
    (agent_id : option string) (status : option string) (user_id : Z)
    (** [analytics_manager.log_event] *)
| Dispatched (workflow_id : string)
    (** [execute_workflow_task.delay(workflow_id)] *).

Record World : Type := {
  db : Store;
  events : list Event
}.

(** How an agent service answers a POST. *)
Inductive post_outcome : Type :=
| Responded (result : pyval)
    (** a 2xx response whose body is the JSON document [result] *)
| Unreachable (msg : string)
    (** timeout or transport failure: [httpx.RequestError] *)
| Rejected (msg : string)
    (** a 4xx/5xx response: [raise_for_status] raises [httpx.HTTPStatusError] *)
| Malformed (msg : string)
    (** a 2xx response whose body is not JSON: [response.json()] raises *).

(** The agent services, as a function of the URL value and the payload. *)
Definition Http : Type := pyval → pyval → post_outcome.

Definition emit (e : Event) : M World unit :=
  λ w, (inr tt, {| db := db w; events := events w ++ [e] |}).

Definition read_db : M World Store := λ w, (inr (db w), w).

(** A committed write to the table. *)
Definition commit (f : Store → Store) : M World unit :=
  λ w, let after := f (db w) in
       (inr tt, {| db := after; events := events w ++ [Committed after] |}).

(** [AnalyticsManager.log_event]: failures to record are logged and
    swallowed there, so the call never raises. *)
Definition log_event (event_type workflow_id : string) (agent_id : option string)
    (status : option string) (user_id : Z) : M World unit :=
  emit (Analytics event_type workflow_id agent_id status user_id).

(** [if user_id:] for an optional integer argument. *)
Definition user_id_given (user_id : option Z) : bool :=
  match user_id with
  | None => false
  | Some u => negb (u =? 0)%Z
  end.

(** [WorkflowManager._get_workflow_from_db]: the first row matching the
    query, where the owner condition is added only [if user_id:]. *)
Definition _get_workflow_from_db (store : Store) (workflow_id : string)
    (user_id : option Z) : option Workflow.t :=
  match store !! workflow_id with
  | None => None
  | Some w =>
      if user_id_given user_id
      then (if (Workflow.user_id w =? default 0 user_id)%Z then Some w else None)
      else Some w
  end.

(** [WorkflowManager._update_workflow_status]: an UPDATE by primary key. *)
Definition _update_workflow_status (workflow_id status : string) : M World unit :=
  commit (alter (Workflow.with_status status) workflow_id).

(** [WorkflowManager._update_workflow_results] *)
Definition _update_workflow_results (workflow_id : string) (results : list pyval)
    : M World unit :=
  commit (alter (Workflow.with_results results) workflow_id).

(** The dictionary returned by [get_workflow_status]. *)
Record StatusInfo : Type := {
  info_id : string;
  info_name : string;
  info_status : string;
  info_results : list pyval
}.

(** [WorkflowManager.get_workflow_status]; [None] is the source's [None]. *)
Definition get_workflow_status (store : Store) (workflow_id : string) (user_id : Z)
    : option StatusInfo :=
  match _get_workflow_from_db store workflow_id (Some user_id) with
  | None => None
  | Some workflow =>
      Some {| info_id := Workflow.id workflow;
              info_name := Workflow.name workflow;
              info_status := Workflow.status workflow;
              info_results := default [] (Workflow.results workflow) |}
  end.

(** [WorkflowManager.get_workflows_for_user], up to row order *)
Definition get_workflows_for_user (store : Store) (user_id : Z)
    : list (string * string * string) :=
  (λ kw, (Workflow.id kw.2, Workflow.name kw.2, Workflow.status kw.2)) <$>
    List.filter (λ kw, (Workflow.user_id kw.2 =? user_id)%Z) (map_to_list store).

(** [WorkflowManager.create_and_dispatch_workflow], given the fresh
    [uuid4()].  Adding a row whose primary key exists fails at commit. *)
Definition create_and_dispatch_workflow (workflow_id name : string)
    (tasks : list Task.t) (user_id : Z) : M World string :=
  let* store := read_db in
  match store !! workflow_id with
  | Some _ => raise (Raised "IntegrityError")
  | None =>
      let* _ := commit (insert workflow_id
                  {| Workflow.id := workflow_id; Workflow.name := name;
                     Workflow.tasks := tasks; Workflow.status := "pending";
                     Workflow.results := Some []; Workflow.user_id := user_id |}) in
      let* _ := log_event "workflow_created" workflow_id None None user_id in
      let* _ := emit (Dispatched workflow_id) in
      ret workflow_id
  end.

(** ** workflow_manager.py: [execute_workflow] *)

(** [except httpx.RequestError] *)
Definition is_request_error (e : exn) : bool :=
  match e with
  | RequestError _ => true
  | _ => false
  end.

(** The three calls that open the [try] block:
    [client.post], [response.raise_for_status()], [response.json()]. *)
Definition post (http : Http) (agent_url payload : pyval) : M World pyval :=
  let* _ := emit (HttpPost agent_url payload) in
  lift match http agent_url payload with
       | Responded result => inr result
       | Unreachable msg => inl (RequestError msg)
       | Rejected msg => inl (HTTPStatusError msg)
       | Malformed msg => inl (ValueError msg)
       end.

Section ExecuteWorkflow.
Context (env : gmap string string) (agents : gmap string pyd) (http : Http).

(** The [for i, task in enumerate(tasks)] loop.  It yields the local
    variables [results] and [final_status] as they stand when the loop is
    left, by exhaustion or by [break]. *)
Fixpoint task_loop (workflow_id : string) (user_id : Z) (tasks : list Task.t)
    (results : list pyval) : M World (list pyval * string) :=
  match tasks with
  | [] => ret (results, "completed")
  | task :: rest =>
      let agent_id := Task.agent_id task in
      let task_details := Task.task_details task in
      let agent_url := AgentManager.get_agent_url env agents agent_id in
      if negb (truthy agent_url) then ret (results, "failed")
      else
        let* outcome := attempt is_request_error (post http agent_url task_details) in
        match outcome with
        | inr result =>
            let results := (results ++ [result])%list in
            let* _ := log_event "agent_task_completed" workflow_id (Some agent_id)
                        (Some "success") user_id in
            task_loop workflow_id user_id rest results
        | inl e =>
            let* _ := log_event "agent_task_failed" workflow_id (Some agent_id)
                        (Some "failed") user_id in
            ret (results, "failed")
        end
  end.

(** [WorkflowManager.execute_workflow] *)
Definition execute_workflow (workflow_id : string) : M World unit :=
  let* store := read_db in
  match _get_workflow_from_db store workflow_id None with
  | None => ret tt
  | Some workflow =>
      let user_id := Workflow.user_id workflow in
      let* _ := _update_workflow_status workflow_id "running" in
      let* _ := log_event "workflow_started" workflow_id None None user_id in
      let* exit := task_loop workflow_id user_id (Workflow.tasks workflow) [] in
      let* _ := _update_workflow_results workflow_id exit.1 in
      let* _ := _update_workflow_status workflow_id exit.2 in
      log_event "workflow_finished" workflow_id None (Some exit.2) user_id
  end.
End ExecuteWorkflow.

(** ** tasks.py *)

Definition agent_metadata (url name description category : string) : pyd :=
  [("url", PStr url); ("name", PStr name);
   ("description", PStr description); ("category", PStr category)].

(** The registry a worker process builds: whatever the definitions directory
    held, then the seven agents registered by hand. *)
Definition worker_agents (definitions : gmap string pyd) : gmap string pyd :=
  let r := AgentManager.register_agent in
  let a0 := definitions in
  let a1 := r a0 "seo_agent_001"
    (agent_metadata "http://seo-agent:5001" "SEO Content Optimizer"
       "Analyzes and optimizes website content for better search engine rankings."
       "Marketing") in
  let a2 := r a1 "lead_scoring_agent_001"
    (agent_metadata "http://lead-scoring-agent:5002" "Lead Scoring Agent"
       "Scores and prioritizes leads based on various data points." "Sales") in
  let a3 := r a2 "social_media_agent_001"
    (agent_metadata "http://social-media-agent:5003" "Social Media Poster"
       "Automates posting content to various social media platforms." "Marketing") in
  let a4 := r a3 "email_campaign_agent_001"
    (agent_metadata "http://email-campaign-agent:5004" "Email Campaign Manager"
       "Manages and sends out targeted email marketing campaigns." "Marketing") in
  let a5 := r a4 "crm_data_entry_agent_001"
    (agent_metadata "http://crm-data-entry-agent:5004" "CRM Data Entry Agent"
       "Enters new contacts into the CRM." "Sales") in
  let a6 := r a5 "meeting_scheduling_agent_001"
    (agent_metadata "http://meeting-scheduling-agent:5005" "Meeting Scheduling Agent"
       "Schedules meetings with clients and team members." "Sales") in
  r a6 "proposal_generation_agent_001"
    (agent_metadata "http://proposal-generation-agent:5006" "Proposal Generation Agent"
       "Generates proposals for clients." "Sales").

(** [execute_workflow_task]: what one delivery of [workflow_id] by the queue
    runs in the worker process. *)
Definition execute_workflow_task (env : gmap string string)
    (definitions : gmap string pyd) (http : Http) (workflow_id : string)
    : M World unit :=
  execute_workflow env (worker_agents definitions) http workflow_id.

(** ** Observations *)

(** The states of the table a reader can see while the events happen:
    the initial one and the one after each commit. *)
Definition store_states (initial : Store) (evs : list Event) : list Store :=
  initial :: omap (λ e, match e with Committed s => Some s | _ => None end) evs.

(** The status a reader finds for [workflow_id] in each of these states. *)
Definition observed_statuses (workflow_id : string) (states : list Store) : list string :=
  omap (λ s, Workflow.status <$> s !! workflow_id) states.


Definition is_commit (e : Event) : bool :=
  match e with
  | Committed _ => true
  | _ => false
  end.

Definition is_post (e : Event) : bool :=
  match e with
  | HttpPost _ _ => true
  | _ => false
  end.

(** ** Concrete agents and teams *)

(** An agent that returns a successful result with the given outputs. *)
Definition succeeds_with (out : pyd) : Agent :=
  λ _ shared, (inr {| AgentResult.status := "success"; AgentResult.outputs := out;
                      AgentResult.error := None |}, shared).

(** An agent that returns a result with status "error". *)
Definition fails_with (msg : string) : Agent :=
  λ _ shared, (inr {| AgentResult.status := "error"; AgentResult.outputs := [];
                      AgentResult.error := Some msg |}, shared).

(** An agent whose [execute] raises. *)
Definition raises_with (msg : string) : Agent :=
  λ _ shared, (inl (Raised msg), shared).

Definition member (id : string) (pri : Z) (req : bool) : TeamMember :=
  {| agent_id := id; role := "contributor"; priority := pri; required := req |}.

Definition team_of (strat : strategy_value) (ms : list (TeamMember * Agent)) : Team :=
  {| config := {| team_id := "team"; members := ms.*1; strategy := strat;
                  shared_context := [] |};
     loaded := list_to_map ((λ ma, (agent_id ma.1, ma.2)) <$> ms) |}.

(** The two-member pipeline of the specification's scenario: A (priority 2)
    succeeds with {"v": 5}, B (priority 1, required) returns an error. *)
Definition pipeline_scenario : Team :=
  team_of (Strategy PIPELINE)
    [(member "A" 2 true, succeeds_with [("v", PInt 5)]);
     (member "B" 1 true, fails_with "boom")].


(** A team whose only member is required and returns an error result. *)
Definition required_failure (strat : TeamStrategy) : Team :=
  team_of (Strategy strat) [(member "A" 1 true, fails_with "boom")].

(** A leader that succeeds and a required follower that returns an error. *)
Definition follower_failure : Team :=
  team_of (Strategy LEADER_FOLLOWER)
    [(member "L" 2 true, succeeds_with [("plan", PInt 1)]);
     (member "F" 1 true, fails_with "boom")].

(** A team whose only member is optional and raises. *)
Definition optional_raise (strat : TeamStrategy) : Team :=
  team_of (Strategy strat) [(member "A" 1 false, raises_with "boom")].

(** A store with one workflow, owned by user 5. *)
Definition one_workflow (status : string) (tasks : list Task.t) : Store :=
  {[ "w1" := {| Workflow.id := "w1"; Workflow.name := "demo";
                Workflow.tasks := tasks; Workflow.status := status;
                Workflow.results := Some []; Workflow.user_id := 5 |} ]}.

(** Agent services that answer every POST with {"ok": <payload>}. *)
Definition echo_http : Http := λ _ payload, Responded (PDict [("ok", payload)]).

Definition two_tasks : list Task.t :=
  [ {| Task.agent_id := "seo_agent_001"; Task.task_details := PInt 1 |};
    {| Task.agent_id := "lead_scoring_agent_001"; Task.task_details := PInt 2 |} ].

Definition fresh_world (s : Store) : World := {| db := s; events := [] |}.

(** ** Notions used to state the properties *)

(** [agent_results] after the call [i]: a returned result is stored under the
    agent's id, a raised exception leaves the dictionary alone. *)
Definition record_invocation (agent_results : pydict AgentResult.t) (i : Invocation)
    : pydict AgentResult.t :=
  match inv_outcome i with
  | inr result => dict_set (inv_agent i) result agent_results
  | inl _ => agent_results
  end.

(** The ids of the agents called so far, in call order. *)
Definition invoked (st : RunState) : list string := inv_agent <$> invocations st.


(** The [TeamResult] a call of [Team.execute] hands to its caller, if it
    returns at all. *)
Definition returned (x : (exn + TeamResult.t) * RunState) : option TeamResult.t :=
  match x.1 with
  | inr r => Some r
  | inl _ => None
  end.

(** The JSON documents with which the agent services answered the POSTs
    among the events [evs], in order. *)
Definition responses (http : Http) (evs : list Event) : list pyval :=
  omap (λ e, match e with
             | HttpPost agent_url payload =>
                 match http agent_url payload with
                 | Responded result => Some result
                 | _ => None
                 end
             | _ => None
             end) evs.


(** The strategies under which a member that raises is skipped when it is
    optional. *)
Definition tolerant (s : strategy_value) : Prop :=
  s = Strategy SEQUENTIAL ∨ s = Strategy PARALLEL ∨ s = Strategy CONSENSUS.

(** The order in which a strategy walks through the configured members. *)
Definition walk_order (s : strategy_value) (ms : list TeamMember) : list TeamMember :=
  match s with
  | Strategy SEQUENTIAL | Strategy PIPELINE => py_sorted_desc priority ms
  | _ => ms
  end.

(** ** Notions used to state how a run proceeds *)

(** Whether a call returned a result with status "success". *)
Definition succeeded (i : Invocation) : bool :=
  match inv_outcome i with
  | inr result => String.eqb (AgentResult.status result) "success"
  | inl _ => false
  end.

(** Whether a call raised. *)
Definition raised (i : Invocation) : bool :=
  match inv_outcome i with
  | inr _ => false
  | inl _ => true
  end.

(** When a strategy goes on to the next member after the call [i] of member
    [m]: SEQUENTIAL stops at a required member that raised or returned
    anything but a success, PARALLEL only at a required member that raised,
    PIPELINE at any member that raised and at a required one that returned
    anything but a success. *)
Definition survives_sequential (m : TeamMember) (i : Invocation) : bool :=
  negb (required m) || succeeded i.

Definition survives_parallel (m : TeamMember) (i : Invocation) : bool :=
  negb (required m) || negb (raised i).

Definition survives_pipeline (m : TeamMember) (i : Invocation) : bool :=
  negb (raised i) && (negb (required m) || succeeded i).

(** LEADER_FOLLOWER: the member with the leader's id has to return a success
    whatever its [required] flag, every other member only must not raise. *)
Definition survives_leader_follower (leader : TeamMember) (m : TeamMember)
    (i : Invocation) : bool :=
  if String.eqb (agent_id m) (agent_id leader) then succeeded i else negb (raised i).

(** [run_of t survives order log stopped]: the calls [log] are those of a walk
    through the members [order], one call per member in this order, that goes
    on as long as the member is loaded and its call survives.  [stopped]
    tells whether the walk ended before the end of [order]: at a call that
    did not survive (the last of [log]), or at a member that is not loaded
    (which is not called). *)
Inductive run_of (t : Team) (survives : TeamMember → Invocation → bool)
    : list TeamMember → list Invocation → bool → Prop :=
| run_done :
    run_of t survives [] [] false
| run_next m ms i log stopped :
    is_Some (loaded t !! agent_id m) →
    inv_agent i = agent_id m →
    survives m i = true →
    run_of t survives ms log stopped →
    run_of t survives (m :: ms) (i :: log) stopped
| run_fatal m ms i :
    is_Some (loaded t !! agent_id m) →
    inv_agent i = agent_id m →
    survives m i = false →
    run_of t survives (m :: ms) [i] true
| run_missing m ms :
    loaded t !! agent_id m = None →
    run_of t survives (m :: ms) [] true.

(** What a pipeline hands to its next stage after the call [i], when it had
    [current] in hand before. *)
Definition pass_on (current : pyd) (i : Invocation) : pyd :=
  match inv_outcome i with
  | inr result =>
      if String.eqb (AgentResult.status result) "success"
      then AgentResult.outputs result else current
  | inl _ => current
  end.

(** The status a run reports. *)
Definition verdict (stopped : bool) : string := if stopped then "error" else "success".

(** The values the successful results among [rs] hold under [key], in the
    order of the results. *)
Definition contributions (key : string) (rs : pydict AgentResult.t) : list pyval :=
  omap (λ entry : string * AgentResult.t,
          if String.eqb (AgentResult.status entry.2) "success"
          then dict_get key (AgentResult.outputs entry.2) else None) rs.

(** The list an aggregate holds under [key], empty if it holds none. *)
Definition collected (key : string) (aggregated : pyd) : list pyval :=
  match dict_get key aggregated with
  | Some (PList l) => l
  | _ => []
  end.

(** Every entry of an aggregate is a non-empty list. *)
Definition grouped (aggregated : pyd) : Prop :=
  ∀ k, dict_get k aggregated = None ∨
       ∃ l, l ≠ [] ∧ dict_get k aggregated = Some (PList l).

(** ** Notions used to state how a workflow runs *)

(** The answer a task gets: its agent resolves to a URL and the service
    there responds with a JSON document. *)
Definition task_answer (env : gmap string string) (agents : gmap string pyd)
    (http : Http) (task : Task.t) : option pyval :=
  let agent_url := AgentManager.get_agent_url env agents (Task.agent_id task) in
  if truthy agent_url then
    match http agent_url (Task.task_details task) with
    | Responded result => Some result
    | _ => None
    end
  else None.

(** The events of a task that is answered. *)
Definition answered_events (env : gmap string string) (agents : gmap string pyd)
    (workflow_id : string) (user_id : Z) (task : Task.t) : list Event :=
  [HttpPost (AgentManager.get_agent_url env agents (Task.agent_id task))
     (Task.task_details task);
   Analytics "agent_task_completed" workflow_id (Some (Task.agent_id task))
     (Some "success") user_id].

(** The exception with which [execute_workflow] is left when an agent
    service answers like this: an HTTP error status and a body that is not
    JSON are not caught by [except httpx.RequestError]. *)
Definition uncaught (o : post_outcome) : option exn :=
  match o with
  | Rejected msg => Some (HTTPStatusError msg)
  | Malformed msg => Some (ValueError msg)
  | _ => None
  end.

(** The row of a workflow after a run that ended with [status] and wrote
    [results]. *)
Definition finished_row (wf : Workflow.t) (status : string) (results : list pyval)
    : Workflow.t :=
  {| Workflow.id := Workflow.id wf; Workflow.name := Workflow.name wf;
     Workflow.tasks := Workflow.tasks wf; Workflow.status := status;
     Workflow.results := Some results; Workflow.user_id := Workflow.user_id wf |}.

Definition is_finished_event (e : Event) : bool :=
  match e with
  | Analytics event_type _ _ _ _ => String.eqb event_type "workflow_finished"
  | _ => false
  end.

Definition is_dispatch (e : Event) : bool :=
  match e with
  | Dispatched _ => true
  | _ => false
  end.

(** A task for an agent nobody registered, after one for a registered one. *)
Definition ghost_tasks : list Task.t :=
  [ {| Task.agent_id := "seo_agent_001"; Task.task_details := PInt 1 |};
    {| Task.agent_id := "ghost"; Task.task_details := PInt 2 |} ].

(** Agent services that answer like [echo_http], except that the payload 2
    gets an HTTP error status. *)
Definition flaky_http : Http :=
  λ _ payload,
    match payload with
    | PInt 2 => Rejected "500 Internal Server Error"
    | _ => Responded (PDict [("ok", payload)])
    end.

(** ** agent_manager.py and main.py: the agent library *)

(** [AgentManager.get_agent_count] *)
Definition get_agent_count (agents : gmap string pyd) : nat := size agents.

(** [AgentManager.list_agents_details], up to the order of the entries:
    a copy of each metadata dictionary with ['id'] set to the registry key. *)
Definition list_agents_details (agents : gmap string pyd) : list pyd :=
  (λ kv, dict_set "id" (PStr kv.1) kv.2) <$> map_to_list agents.

(** [metadata.get('category') == category], for a string [category] *)
Definition has_category (category : string) (metadata : pyd) : bool :=
  match dict_get "category" metadata with
  | Some (PStr c) => String.eqb c category
  | _ => false
  end.

(** [AgentManager.list_agents_by_category], up to the order of the entries *)
Definition list_agents_by_category (agents : gmap string pyd) (category : string)
    : list pyd :=
  (λ kv, dict_set "id" (PStr kv.1) kv.2) <$>
    List.filter (λ kv, has_category category kv.2) (map_to_list agents).

(** The seven registrations of [execute_workflow_task], as id and URL. *)
Definition builtin_url (agent_id : string) : option string :=
  if String.eqb agent_id "seo_agent_001" then Some "http://seo-agent:5001"
  else if String.eqb agent_id "lead_scoring_agent_001" then Some "http://lead-scoring-agent:5002"
  else if String.eqb agent_id "social_media_agent_001" then Some "http://social-media-agent:5003"
  else if String.eqb agent_id "email_campaign_agent_001" then Some "http://email-campaign-agent:5004"
  else if String.eqb agent_id "crm_data_entry_agent_001" then Some "http://crm-data-entry-agent:5004"
  else if String.eqb agent_id "meeting_scheduling_agent_001" then
    Some "http://meeting-scheduling-agent:5005"
  else if String.eqb agent_id "proposal_generation_agent_001" then
    Some "http://proposal-generation-agent:5006"
  else None.

(** ** enhanced_agent.py and team.py: messages between agents *)

Module CollaborationMessage.
(** [timestamp], the wall clock at construction, is left out: no code reads
    it.  [context] names the [TaskContext] object the message points to. *)
Record t : Type := {
  message_id : string;
  from_agent : string;
  to_agent : string;
  message_type : string;
  payload : pyd;
  context : option nat
}.
End CollaborationMessage.

Module EnhancedBaseAgent.
(** The collaboration state of an agent object.  [team_members] names a set
    object: [join_team] stores the set it is given, not a copy. *)
Record t : Type := {
  current_team : option string;
  team_members : nat;
  shared_context : option nat;
  message_queue : list CollaborationMessage.t
}.

(** Agent objects by [agent_id], and the set objects they point to. *)
Record Heap : Type := {
  sets : gmap nat (gset string);
  objects : gmap string t
}.

(** [agent.join_team(team_id, team_members)] for the agent [self] *)
Definition join_team (self team_id : string) (members : nat) (h : Heap) : Heap :=
  {| sets := sets h;
     objects := alter (λ o, {| current_team := Some team_id;
                               team_members := members;
                               shared_context := shared_context o;
                               message_queue := message_queue o |}) self (objects h) |}.

(** [agent.leave_team()]: [self.team_members.clear()] empties the set object
    in place. *)
Definition leave_team (self : string) (h : Heap) : Heap :=
  match objects h !! self with
  | None => h
  | Some o =>
      {| sets := alter (λ _, ∅) (team_members o) (sets h);
         objects := <[self := {| current_team := None;
                                 team_members := team_members o;
                                 shared_context := None;
                                 message_queue := message_queue o |}]> (objects h) |}
  end.

(** [agent.send_message(to_agent, message_type, payload)], given the fresh
    [uuid4()] *)
Definition send_message (self : string) (o : t) (to_agent message_type : string)
    (payload : pyd) (message_id : string) : CollaborationMessage.t :=
  {| CollaborationMessage.message_id := message_id;
     CollaborationMessage.from_agent := self;
     CollaborationMessage.to_agent := to_agent;
     CollaborationMessage.message_type := message_type;
     CollaborationMessage.payload := payload;
     CollaborationMessage.context := shared_context o |}.

(** [self.current_team] as a condition: [None] and the empty string fail. *)
Definition in_team (o : t) : bool :=
  match current_team o with
  | Some team_id => negb (String.eqb team_id "")
  | None => false
  end.

(** [agent.broadcast_to_team(message_type, payload)], given the [uuid4()] of
    the i-th message.  The order in which Python walks a set is not
    specified; the model walks it in the order of [elements]. *)
Definition broadcast_to_team (uuid4 : nat → string) (self : string) (o : t)
    (message_type : string) (payload : pyd) (sets : gmap nat (gset string))
    : exn + list CollaborationMessage.t :=
  if negb (in_team o) then inl (Raised "Agent not in a team")
  else
    inr (imap (λ i member, send_message self o member message_type payload (uuid4 i))
           (filter (λ member, member ≠ self)
              (elements (default ∅ (sets !! team_members o))))).

(** [agent.receive_message(message)] *)
Definition receive_message (message : CollaborationMessage.t) (o : t) : t :=
  {| current_team := current_team o;
     team_members := team_members o;
     shared_context := shared_context o;
     message_queue := (message_queue o ++ [message])%list |}.
End EnhancedBaseAgent.

(** [Team.send_message_to_agent], given the fresh [uuid4()] and the team's
    current [self.context]; the state is [self.message_bus] and the agent
    objects. *)
Definition send_message_to_agent (t : Team) (context : option nat)
    (message_id from_agent_id to_agent_id message_type : string) (payload : pyd)
    (st : list CollaborationMessage.t * EnhancedBaseAgent.Heap)
    : list CollaborationMessage.t * EnhancedBaseAgent.Heap :=
  let message :=
    {| CollaborationMessage.message_id := message_id;
       CollaborationMessage.from_agent := from_agent_id;
       CollaborationMessage.to_agent := to_agent_id;
       CollaborationMessage.message_type := message_type;
       CollaborationMessage.payload := payload;
       CollaborationMessage.context := context |} in
  ((st.1 ++ [message])%list,
   match loaded t !! to_agent_id with
   | Some _ =>
       {| EnhancedBaseAgent.sets := EnhancedBaseAgent.sets st.2;
          EnhancedBaseAgent.objects :=
            alter (EnhancedBaseAgent.receive_message message) to_agent_id
              (EnhancedBaseAgent.objects st.2) |}
   | None => st.2
   end).

(** The calls [send_message_to_agent] that produce the given messages, one
    after the other. *)
Definition send_all (t : Team) (messages : list CollaborationMessage.t)
    (st : list CollaborationMessage.t * EnhancedBaseAgent.Heap)
    : list CollaborationMessage.t * EnhancedBaseAgent.Heap :=
  foldl (λ st m,
           send_message_to_agent t (CollaborationMessage.context m)
             (CollaborationMessage.message_id m) (CollaborationMessage.from_agent m)
             (CollaborationMessage.to_agent m) (CollaborationMessage.message_type m)
             (CollaborationMessage.payload m) st)
        st messages.

(** What an agent's queue holds once [messages] were sent through the team. *)
Definition delivered (t : Team) (id : string) (messages : list CollaborationMessage.t)
    (o : EnhancedBaseAgent.t) : EnhancedBaseAgent.t :=
  {| EnhancedBaseAgent.current_team := EnhancedBaseAgent.current_team o;
     EnhancedBaseAgent.team_members := EnhancedBaseAgent.team_members o;
     EnhancedBaseAgent.shared_context := EnhancedBaseAgent.shared_context o;
     EnhancedBaseAgent.message_queue :=
       (EnhancedBaseAgent.message_queue o ++
        match loaded t !! id with
        | Some _ => filter (λ m, CollaborationMessage.to_agent m = id) messages
        | None => []
        end)%list |}.

(** Two agents and the set object 0 that a caller built for their team. *)
Definition idle_agent (own_set : nat) : EnhancedBaseAgent.t :=
  {| EnhancedBaseAgent.current_team := None;
     EnhancedBaseAgent.team_members := own_set;
     EnhancedBaseAgent.shared_context := None;
     EnhancedBaseAgent.message_queue := [] |}.

Definition two_agents : EnhancedBaseAgent.Heap :=
  {| EnhancedBaseAgent.sets :=
       {[ 0%nat := {[ "a"; "b" ]}; 1%nat := ∅; 2%nat := ∅ ]};
     EnhancedBaseAgent.objects :=
       {[ "a" := idle_agent 1; "b" := idle_agent 2 ]} |}.

(** [AgentRegistry.unregister_agent]: an id that is not registered is
    ignored *)
Definition unregister_agent (agents : gmap string Agent) (id : string)
    : gmap string Agent := delete id agents.

(** * Properties *)

(** ** Dictionaries *)

Section DictFacts.
Context {V : Type}.
Implicit Types (d : pydict V) (k : string) (v : V).

Lemma dict_get_set_eq k v d : dict_get k (dict_set k v d) = Some v.
Proof.
  induction d as [|[k' v'] d IH]; simpl.
  - by rewrite String.eqb_refl.
  - destruct (String.eqb k' k) eqn:E; simpl; rewrite E; done.
Qed.

Lemma dict_get_set_ne k k' v d :
  k ≠ k' → dict_get k' (dict_set k v d) = dict_get k' d.
Proof.
  intros Hne. induction d as [|[k0 v0] d IH]; simpl.
  - destruct (String.eqb_spec k k'); [done|done].
  - destruct (String.eqb_spec k0 k) as [->|Hk]; simpl.
    + destruct (String.eqb_spec k k'); [done|done].
    + by rewrite IH.
Qed.

Lemma dict_get_None k d : dict_get k d = None ↔ k ∉ dict_keys d.
Proof.
  unfold dict_keys. induction d as [|[k0 v0] d IH]; simpl.
  - split; [intros _; apply not_elem_of_nil|done].
  - rewrite not_elem_of_cons. destruct (String.eqb_spec k0 k) as [->|Hk].
    + split; [done|]. intros [? _]. done.
    + rewrite IH. split; [|tauto]. intros ?. split; [congruence|done].
Qed.


Lemma dict_set_length_le k v d : (length d ≤ length (dict_set k v d))%nat.
Proof.
  induction d as [|[k0 v0] d IH]; simpl; [lia|].
  destruct (String.eqb k0 k); simpl; lia.
Qed.
End DictFacts.

(** ** [sorted(..., reverse=True)] *)

Section SortFacts.
Context {A : Type} (key : A → Z).
Implicit Types (x : A) (l : list A).

Lemma insert_desc_perm x l : insert_desc key x l ≡ₚ x :: l.
Proof.
  induction l as [|y l IH]; simpl; [done|].
  destruct (key x <? key y)%Z; [|done].
  rewrite IH. apply Permutation_swap.
Qed.

Lemma py_sorted_desc_perm l : py_sorted_desc key l ≡ₚ l.
Proof.
  induction l as [|x l IH]; simpl; [done|].
  by rewrite insert_desc_perm, IH.
Qed.




End SortFacts.

(** ** What the dictionary of per-member results holds *)


Lemma recorded_other (k : string) (new : list Invocation) (rs : pydict AgentResult.t) :
  k ∉ inv_agent <$> new →
  dict_get k (foldl record_invocation rs new) = dict_get k rs.
Proof.
  revert rs. induction new as [|i new IH]; intros rs Hk; simpl; [done|].
  rewrite fmap_cons, not_elem_of_cons in Hk. destruct Hk as [Hne Hk].
  rewrite IH by done. unfold record_invocation.
  destruct (inv_outcome i); [done|]. by rewrite dict_get_set_ne.
Qed.

(** With distinct agent ids, a call that returned is found under its agent's
    id, and a call that raised has left no entry of its own. *)
Lemma recorded_lookup (new : list Invocation) (rs : pydict AgentResult.t) (i : Invocation) :
  NoDup (inv_agent <$> new) → i ∈ new →
  dict_get (inv_agent i) (foldl record_invocation rs new) =
    match inv_outcome i with
    | inr result => Some result
    | inl _ => dict_get (inv_agent i) rs
    end.
Proof.
  revert rs. induction new as [|j new IH]; intros rs Hnd Hin.
  - by apply elem_of_nil in Hin.
  - rewrite fmap_cons in Hnd. apply NoDup_cons in Hnd as [Hj Hnd].
    apply elem_of_cons in Hin as [->|Hin]; simpl.
    + rewrite recorded_other by done. unfold record_invocation.
      destruct (inv_outcome j); [done|]. apply dict_get_set_eq.
    + rewrite IH by done. destruct (inv_outcome i) as [e|result]; [|done].
      unfold record_invocation. destruct (inv_outcome j) as [|rj]; [done|].
      apply dict_get_set_ne. intros Heq. apply Hj. rewrite Heq.
      by apply list_elem_of_fmap_2.
Qed.

(** ** The loops of the strategies *)

(** Unfold one layer of the effect combinators. *)
Ltac run_step :=
  unfold attempt, try_except, member_agent, invoke, set_shared, get_shared,
         lift, bind, ret, raise, any_exception; cbn.





(** When no member is required and every member is loaded, the sequential
    loop calls them all and ends in success. *)
Lemma sequential_loop_optional t task ms rs outs st :
  Forall (λ m, required m = false) ms →
  Forall (λ m, is_Some (loaded t !! agent_id m)) ms →
  ∃ r st' new,
    sequential_loop t task ms rs outs st = (inr r, st') ∧
    TeamResult.status r = "success" ∧
    invocations st' = (invocations st ++ new)%list ∧
    inv_agent <$> new = agent_id <$> ms ∧
    TeamResult.agent_results r = foldl record_invocation rs new.
Proof.
  intros Hopt Hload. revert rs outs st.
  induction ms as [|m ms IH]; intros rs outs st.
  - eexists _, _, []. cbn. rewrite app_nil_r. done.
  - apply Forall_cons in Hopt as [Hm Hopt]. apply Forall_cons in Hload as [[agent Hl] Hload].
    specialize (IH Hopt Hload).
    cbn [sequential_loop]. run_step. rewrite Hl, Hm. cbn.
    destruct (agent task (shared_data st)) as [[e|result] sd] eqn:Hcall; cbn.
    + edestruct IH as (r & st' & new & Heq & Hs & Hinv & Hids & Hres).
      eexists r, st', (_ :: new). rewrite Heq, Hinv. cbn. rewrite <- app_assoc. cbn.
      rewrite Hids. done.
    + destruct (String.eqb (AgentResult.status result) "success"); cbn.
      * edestruct IH as (r & st' & new & Heq & Hs & Hinv & Hids & Hres).
        eexists r, st', (_ :: new). rewrite Heq, Hinv. cbn. rewrite <- app_assoc. cbn.
        rewrite Hids. done.
      * edestruct IH as (r & st' & new & Heq & Hs & Hinv & Hids & Hres).
        eexists r, st', (_ :: new). rewrite Heq, Hinv. cbn. rewrite <- app_assoc. cbn.
        rewrite Hids. done.
Qed.

Lemma parallel_loop_optional t task ms rs outs st :
  Forall (λ m, required m = false) ms →
  Forall (λ m, is_Some (loaded t !! agent_id m)) ms →
  ∃ r st' new,
    parallel_loop t task ms rs outs st = (inr r, st') ∧
    TeamResult.status r = "success" ∧
    invocations st' = (invocations st ++ new)%list ∧
    inv_agent <$> new = agent_id <$> ms ∧
    TeamResult.agent_results r = foldl record_invocation rs new.
Proof.
  intros Hopt Hload. revert rs outs st.
  induction ms as [|m ms IH]; intros rs outs st.
  - eexists _, _, []. cbn. rewrite app_nil_r. done.
  - apply Forall_cons in Hopt as [Hm Hopt]. apply Forall_cons in Hload as [[agent Hl] Hload].
    specialize (IH Hopt Hload).
    cbn [parallel_loop]. run_step. rewrite Hl, Hm. cbn.
    destruct (agent task (shared_data st)) as [[e|result] sd] eqn:Hcall; cbn.
    + edestruct IH as (r & st' & new & Heq & Hs & Hinv & Hids & Hres).
      eexists r, st', (_ :: new). rewrite Heq, Hinv. cbn. rewrite <- app_assoc. cbn.
      rewrite Hids. done.
    + destruct (String.eqb (AgentResult.status result) "success"); cbn.
      * edestruct IH as (r & st' & new & Heq & Hs & Hinv & Hids & Hres).
        eexists r, st', (_ :: new). rewrite Heq, Hinv. cbn. rewrite <- app_assoc. cbn.
        rewrite Hids. done.
      * edestruct IH as (r & st' & new & Heq & Hs & Hinv & Hids & Hres).
        eexists r, st', (_ :: new). rewrite Heq, Hinv. cbn. rewrite <- app_assoc. cbn.
        rewrite Hids. done.
Qed.

(** ** [Team.execute] *)

(** What [execute] makes of the outcome of the strategy handler. *)
Lemma execute_unfold t task :
  execute t task =
    match dispatch t task (initial_state t) with
    | (inr r, st) => (inr (count_agents r), st)
    | (inl e, st) => (inr (count_agents (mk_result t "error" [] [] [] (Some (exn_str e)))), st)
    end.
Proof.
  unfold execute, execute_m, bind, try_except, any_exception, ret.
  by destruct (dispatch t task (initial_state t)) as [[e|r] st].
Qed.


(** C1, at the inputs where the code departs from it: a required member
    that returns a result with status "error" leaves the team result at
    "success" under PARALLEL and CONSENSUS, and so does a required follower
    under LEADER_FOLLOWER.  The failed result sits in [agent_results]. *)
Theorem required_error_result_not_reported :
  TeamResult.status <$> returned (execute (required_failure PARALLEL) []) = Some "success" ∧
  TeamResult.status <$> returned (execute (required_failure CONSENSUS) []) = Some "success" ∧
  TeamResult.status <$> returned (execute follower_failure []) = Some "success" ∧
  (AgentResult.status <$>
     (returned (execute (required_failure PARALLEL) []) ≫=
        λ r, dict_get "A" (TeamResult.agent_results r))) = Some "error" ∧
  (AgentResult.status <$>
     (returned (execute follower_failure []) ≫=
        λ r, dict_get "F" (TeamResult.agent_results r))) = Some "error".
Proof. repeat split; vm_compute; reflexivity. Qed.

(** The sibling strategies do report it: the same team run under SEQUENTIAL
    or PIPELINE ends in "error". *)
Lemma required_error_result_reported :
  TeamResult.status <$> returned (execute (required_failure SEQUENTIAL) []) = Some "error" ∧
  TeamResult.status <$> returned (execute (required_failure PIPELINE) []) = Some "error".
Proof. split; vm_compute; reflexivity. Qed.




(** ** Order of invocation *)



(** The happy path of the specification: A (priority 2) runs before B
    (priority 1) although B is configured first, both outputs are collected,
    and A's output is in the shared context. *)
Lemma sequential_scenario :
  let t := team_of (Strategy SEQUENTIAL)
             [(member "B" 1 true, succeeds_with [("z", PInt 3)]);
              (member "A" 2 true, succeeds_with [("y", PInt 2)])] in
  invoked (execute t [("x", PInt 1)]).2 = ["A"; "B"] ∧
  TeamResult.outputs <$> returned (execute t [("x", PInt 1)]) =
    Some [("A", PDict [("y", PInt 2)]); ("B", PDict [("z", PInt 3)])] ∧
  dict_get "A_output" (shared_data (execute t [("x", PInt 1)]).2) =
    Some (PDict [("y", PInt 2)]).
Proof. repeat split; vm_compute; reflexivity. Qed.

(** ** Pipelines *)




(** ** Optional members *)

(** C7, as stated, fails: an optional member whose [execute] raises is only
    logged.  The team result is "success", but the failed member does not
    appear in [agent_results] at all. *)
Lemma raised_failure_not_recorded :
  TeamResult.status <$> returned (execute (optional_raise SEQUENTIAL) []) = Some "success" ∧
  TeamResult.agent_results <$> returned (execute (optional_raise SEQUENTIAL) []) = Some [] ∧
  invoked (execute (optional_raise SEQUENTIAL) []).2 = ["A"].
Proof. repeat split; vm_compute; reflexivity. Qed.

(** Under PIPELINE and LEADER_FOLLOWER an optional member is no protection:
    the exception of an optional stage, or a leader that is configured as
    optional and returns an error, ends the run in "error". *)
Lemma optional_member_fails_team :
  TeamResult.status <$> returned (execute (optional_raise PIPELINE) []) = Some "error" ∧
  TeamResult.status <$> returned (execute (optional_raise LEADER_FOLLOWER) []) = Some "error" ∧
  TeamResult.status <$>
    returned (execute (team_of (Strategy LEADER_FOLLOWER)
                         [(member "A" 1 false, fails_with "boom")]) []) = Some "error".
Proof. repeat split; vm_compute; reflexivity. Qed.

Lemma consensus_keeps_parallel t task st :
  ∀ r st', _execute_parallel t task st = (inr r, st') →
  ∃ r', _execute_consensus t task st = (inr r', st') ∧
        TeamResult.status r' = TeamResult.status r ∧
        TeamResult.agent_results r' = TeamResult.agent_results r.
Proof.
  intros r st' Hp. unfold _execute_consensus, bind. rewrite Hp. cbn.
  eexists. split; [reflexivity|]. done.
Qed.

(** C7, amended.  Under SEQUENTIAL, PARALLEL and CONSENSUS, when no member
    is required (all of them loaded, with distinct agent ids), every member
    is invoked and the team result is "success" whichever of them fail.  A
    member whose invocation returned a result, an error result included, is
    found in [agent_results] with that very result; a member whose
    invocation raised has no entry. *)
Theorem optional_failures_tolerated (t : Team) (task : pyd) :
  tolerant (strategy (config t)) →
  Forall (λ m, required m = false) (members (config t)) →
  Forall (λ m, is_Some (loaded t !! agent_id m)) (members (config t)) →
  NoDup (agent_id <$> members (config t)) →
  ∃ r st, execute t task = (inr r, st) ∧
    TeamResult.status r = "success" ∧
    invoked st = agent_id <$> walk_order (strategy (config t)) (members (config t)) ∧
    ∀ i, i ∈ invocations st →
      dict_get (inv_agent i) (TeamResult.agent_results r) =
        match inv_outcome i with
        | inr result => Some result
        | inl _ => None
        end.
Proof.
  intros Htol Hopt Hload Hnd.
  assert (∃ r st,
    dispatch t task (initial_state t) = (inr r, st) ∧
    TeamResult.status r = "success" ∧
    inv_agent <$> invocations st =
      agent_id <$> walk_order (strategy (config t)) (members (config t)) ∧
    TeamResult.agent_results r = foldl record_invocation [] (invocations st))
    as (r & st & Hd & Hstatus & Hids & Hres).
  { unfold dispatch, walk_order.
    destruct Htol as [-> | [-> | ->]].
    - unfold _execute_sequential.
      destruct (sequential_loop_optional t task
                  (py_sorted_desc priority (members (config t))) [] [] (initial_state t))
        as (r & st & new & Heq & Hs & Hinv & Hids & Hres).
      + by rewrite py_sorted_desc_perm.
      + by rewrite py_sorted_desc_perm.
      + cbn in Hinv. subst new. eauto 10.
    - unfold _execute_parallel.
      destruct (parallel_loop_optional t task (members (config t)) [] [] (initial_state t))
        as (r & st & new & Heq & Hs & Hinv & Hids & Hres); [done|done|].
      cbn in Hinv. subst new. eauto 10.
    - destruct (parallel_loop_optional t task (members (config t)) [] [] (initial_state t))
        as (r & st & new & Heq & Hs & Hinv & Hids & Hres); [done|done|].
      cbn in Hinv. subst new.
      destruct (consensus_keeps_parallel t task (initial_state t) r st Heq)
        as (r' & Heq' & Hs' & Hr').
      exists r', st. rewrite Heq', Hs', Hr'. done. }
  rewrite execute_unfold, Hd. exists (count_agents r), st.
  split; [done|]. split; [done|]. split; [done|].
  intros i Hi. cbn. rewrite Hres, recorded_lookup; [by destruct (inv_outcome i)| |done].
  rewrite Hids. unfold walk_order.
  destruct Htol as [-> | [-> | ->]]; [|done|done].
  by rewrite py_sorted_desc_perm.
Qed.

Lemma optional_failures_tolerated_witness :
  let t := team_of (Strategy SEQUENTIAL)
             [(member "A" 1 false, raises_with "boom");
              (member "B" 2 false, fails_with "bad");
              (member "C" 3 false, succeeds_with [("y", PInt 2)])] in
  ∃ r st, execute t [] = (inr r, st) ∧
    TeamResult.status r = "success" ∧
    invoked st = ["C"; "B"; "A"].
Proof.
  intros t.
  destruct (optional_failures_tolerated t []) as (r & st & Hr & Hs & Hinv & _).
  - left. reflexivity.
  - repeat constructor.
  - repeat constructor; eexists; vm_compute; reflexivity.
  - cbn. repeat constructor; vm_compute; intros H; inversion H; subst;
      repeat match goal with
             | X : _ ∈ _ :: _ |- _ => inversion X; clear X; subst
             | X : _ ∈ [] |- _ => inversion X
             end.
  - exists r, st. split; [exact Hr|]. split; [exact Hs|]. exact Hinv.
Defined.

(** ** The workflow store *)

(** C8, at the input where the code departs from it: the owner condition is
    added only [if user_id:], which is false for owner id 0, so a request by
    owner 0 is answered with the workflow of owner 5. *)
Theorem owner_zero_reads_any_workflow :
  Workflow.user_id <$> one_workflow "pending" [] !! "w1" = Some 5 ∧
  get_workflow_status (one_workflow "pending" []) "w1" 0 =
    Some {| info_id := "w1"; info_name := "demo"; info_status := "pending";
            info_results := [] |} ∧
  get_workflow_status (one_workflow "pending" []) "w1" 4 = None.
Proof. repeat split; vm_compute; reflexivity. Qed.

(** For every other owner id the lookup is as the docstring promises: the
    snapshot exactly when the id exists and belongs to the requester. *)
Lemma get_workflow_status_owner (store : Store) (workflow_id : string) (user_id : Z) :
  user_id ≠ 0 →
  get_workflow_status store workflow_id user_id =
    match store !! workflow_id with
    | Some w =>
        if decide (Workflow.user_id w = user_id)
        then Some {| info_id := Workflow.id w; info_name := Workflow.name w;
                     info_status := Workflow.status w;
                     info_results := default [] (Workflow.results w) |}
        else None
    | None => None
    end.
Proof.
  intros Hne. unfold get_workflow_status, _get_workflow_from_db, user_id_given.
  destruct (store !! workflow_id) as [w|]; [|done]. cbn.
  destruct (Z.eqb_spec user_id 0) as [?|_]; [done|]. cbn.
  destruct (Z.eqb_spec (Workflow.user_id w) user_id); case_decide; done.
Qed.

(** ** The agent registry of the orchestration engine *)

(** C10, at the input where the code departs from it: an agent registered
    with empty metadata is registered, and yet [get_agent_url] returns
    [None] for it, since [not agent_info] also holds for an empty
    dictionary. *)
Theorem empty_metadata_does_not_resolve :
  let agents := AgentManager.register_agent ∅ "a1" [] in
  "a1" ∈ AgentManager.list_agents agents ∧
  AgentManager.get_agent agents "a1" = Some [] ∧
  AgentManager.get_agent_url ∅ agents "a1" = PNone.
Proof.
  intros agents. split; [|split; vm_compute; reflexivity].
  unfold AgentManager.list_agents, agents, AgentManager.register_agent.
  rewrite dom_insert_L. set_solver.
Qed.

(** With metadata that is not empty the lookup is as the comment in the code
    promises: the agent's own "url" when it has one that is truthy, the
    generic runner otherwise. *)
Lemma get_agent_url_registered (env : gmap string string) (agents : gmap string pyd)
    (agent_id : string) (info : pyd) :
  agents !! agent_id = Some info → info ≠ [] →
  AgentManager.get_agent_url env agents agent_id =
    match dict_get "url" info with
    | Some url =>
        if truthy url then url
        else PStr (AgentManager.getenv env "GENERIC_AGENT_URL" "http://generic-agent:5000")
    | None => PStr (AgentManager.getenv env "GENERIC_AGENT_URL" "http://generic-agent:5000")
    end.
Proof.
  intros Hl Hne. unfold AgentManager.get_agent_url, AgentManager.py_or.
  unfold pydict in *. rewrite Hl.
  destruct info as [|kv info]; [done|]. cbn [truthy negb].
  by destruct (dict_get "url" (kv :: info)).
Qed.

Lemma get_agent_url_unregistered (env : gmap string string) (agents : gmap string pyd)
    (agent_id : string) :
  agents !! agent_id = None → AgentManager.get_agent_url env agents agent_id = PNone.
Proof.
  intros Hl. unfold AgentManager.get_agent_url. unfold pydict in *. by rewrite Hl.
Qed.

(** Registering an id twice leaves one entry, holding the second metadata. *)
Lemma register_agent_twice (agents : gmap string pyd) (agent_id : string) (m1 m2 : pyd) :
  AgentManager.register_agent (AgentManager.register_agent agents agent_id m1) agent_id m2
    = AgentManager.register_agent agents agent_id m2.
Proof. unfold AgentManager.register_agent. apply insert_insert_eq. Qed.

(** ** [execute_workflow] *)

Section WorkflowRun.
Context (env : gmap string string) (agents : gmap string pyd) (http : Http).

(** The task loop writes nothing to the store: it only posts to agents and
    logs analytics events.  The results it hands over when it is left are
    the ones it started with followed by the agents' answers, in order. *)
Lemma task_loop_run (workflow_id : string) (user_id : Z) (tasks : list Task.t)
    (results : list pyval) (w : World) :
  ∃ during,
    events (task_loop env agents http workflow_id user_id tasks results w).2
      = (events w ++ during)%list ∧
    db (task_loop env agents http workflow_id user_id tasks results w).2 = db w ∧
    Forall (λ e, is_commit e = false) during ∧
    ∀ res final,
      (task_loop env agents http workflow_id user_id tasks results w).1 = inr (res, final) →
      (final = "completed" ∨ final = "failed") ∧
      res = (results ++ responses http during)%list.
Proof.
  revert results w. induction tasks as [|task tasks IH]; intros results w.
  - exists []. cbn. rewrite !app_nil_r. split; [done|]. split; [done|].
    split; [constructor|]. intros res final [= <- <-]. split; [by left|done].
  - cbn [task_loop].
    destruct (negb (truthy (AgentManager.get_agent_url env agents (Task.agent_id task))))
      eqn:Hurl.
    { exists []. cbn. rewrite !app_nil_r. split; [done|]. split; [done|].
      split; [constructor|]. intros res final [= <- <-]. split; [by right|done]. }
    unfold bind at 1. unfold attempt, try_except, post, bind, emit, lift, log_event, ret.
    cbn.
    destruct (http (AgentManager.get_agent_url env agents (Task.agent_id task))
                (Task.task_details task)) as [result|msg|msg|msg] eqn:Hpost; cbn.
    + edestruct IH as (during & Hev & Hdb & Hnc & Hres).
      eexists (_ :: _ :: during). rewrite Hev, Hdb. cbn.
      split; [by rewrite <- !app_assoc|]. split; [done|].
      split; [repeat constructor; done|].
      intros res final Hr. destruct (Hres res final Hr) as [Hf ->].
      split; [done|]. unfold responses. cbn. rewrite Hpost. cbn.
      by rewrite <- app_assoc.
    + eexists [_; _]. cbn.
      split; [by rewrite <- !app_assoc|]. split; [done|].
      split; [repeat constructor|].
      intros res final [= <- <-]. split; [by right|].
      unfold responses. cbn. rewrite Hpost. cbn. by rewrite app_nil_r.
    + eexists [_]. cbn.
      split; [done|]. split; [done|]. split; [repeat constructor|]. done.
    + eexists [_]. cbn.
      split; [done|]. split; [done|]. split; [repeat constructor|]. done.
Qed.

Lemma execute_workflow_unfold (store : Store) (workflow_id : string) (wf : Workflow.t) :
  store !! workflow_id = Some wf →
  let running := alter (Workflow.with_status "running") workflow_id store in
  execute_workflow env agents http workflow_id (fresh_world store) =
    match task_loop env agents http workflow_id (Workflow.user_id wf)
            (Workflow.tasks wf) []
            {| db := running;
               events := [Committed running;
                          Analytics "workflow_started" workflow_id None None
                            (Workflow.user_id wf)] |} with
    | (inl e, w') => (inl e, w')
    | (inr exit, w') =>
        let written := alter (Workflow.with_results exit.1) workflow_id (db w') in
        let finished := alter (Workflow.with_status exit.2) workflow_id written in
        (inr tt,
         {| db := finished;
            events := (events w' ++
                       [Committed written; Committed finished;
                        Analytics "workflow_finished" workflow_id None (Some exit.2)
                          (Workflow.user_id wf)])%list |})
    end.
Proof.
  intros Hl running.
  unfold execute_workflow, bind, read_db, fresh_world, _get_workflow_from_db,
    _update_workflow_status, _update_workflow_results, commit, log_event, emit.
  cbn. unfold pydict in *. rewrite Hl. cbn. fold running.
  destruct (task_loop _ _ _ _ _ _ _ _) as [[e|exit] w']; [done|].
  cbn. by rewrite <- !app_assoc.
Qed.

(** The shape of a run of [execute_workflow] on a workflow that exists:
    "running" is committed, the tasks are worked through without a commit,
    and only then, unless an invocation raised something else than a
    [RequestError], the results and the final status are committed. *)
Lemma execute_workflow_run (store : Store) (workflow_id : string) (wf : Workflow.t) :
  store !! workflow_id = Some wf →
  let run := execute_workflow env agents http workflow_id (fresh_world store) in
  let running := alter (Workflow.with_status "running") workflow_id store in
  ∃ during,
    Forall (λ e, is_commit e = false) during ∧
    match run.1 with
    | inr _ =>
        ∃ final, (final = "completed" ∨ final = "failed") ∧
          let written :=
            alter (Workflow.with_results (responses http during)) workflow_id running in
          events run.2 =
            ([Committed running;
              Analytics "workflow_started" workflow_id None None (Workflow.user_id wf)]
             ++ during ++
             [Committed written;
              Committed (alter (Workflow.with_status final) workflow_id written);
              Analytics "workflow_finished" workflow_id None (Some final)
                (Workflow.user_id wf)])%list
    | inl _ =>
        events run.2 =
          ([Committed running;
            Analytics "workflow_started" workflow_id None None (Workflow.user_id wf)]
           ++ during)%list
    end.
Proof.
  intros Hl run running. subst run.
  rewrite (execute_workflow_unfold store workflow_id wf Hl). fold running.
  set (w1 := {| db := running; events := _ |}).
  destruct (task_loop_run workflow_id (Workflow.user_id wf) (Workflow.tasks wf) [] w1)
    as (during & Hev & Hdb & Hnc & Hres).
  exists during. split; [exact Hnc|].
  destruct (task_loop _ _ _ _ _ _ _ _) as [[e|[res final]] w'] eqn:Hloop; cbn in *.
  - exact Hev.
  - destruct (Hres res final eq_refl) as [Hf ->].
    exists final. split; [done|].
    rewrite Hev, Hdb. reflexivity.
Qed.
End WorkflowRun.

(** ** What a reader of the store sees *)

Lemma no_commit_no_state (evs : list Event) :
  Forall (λ e, is_commit e = false) evs →
  omap (λ e, match e with Committed s => Some s | _ => None end) evs = [].
Proof.
  induction 1 as [|e evs He _ IH]; [done|]. cbn. rewrite IH. by destruct e.
Qed.

(** C3, as stated, fails: [execute_workflow] writes "running" without looking
    at the stored status, so when the queue delivers the id of a finished
    workflow a second time, a reader sees "completed" and later "running". *)
Lemma redelivery_regresses :
  let store := one_workflow "pending" [] in
  let first := (execute_workflow_task ∅ ∅ echo_http "w1" (fresh_world store)).2 in
  let second := (execute_workflow_task ∅ ∅ echo_http "w1" first).2 in
  observed_statuses "w1" (store_states store (events first)) =
    ["pending"; "running"; "running"; "completed"] ∧
  observed_statuses "w1" (store_states store (events second)) =
    ["pending"; "running"; "running"; "completed"; "running"; "running"; "completed"].
Proof. split; vm_compute; reflexivity. Qed.

(** C3, amended.  One delivery of a workflow id takes the stored status,
    whatever it is, to "running" and from there to exactly one of
    "completed" and "failed"; the run stops at "running" when an agent
    invocation raises something else than a [RequestError].  From "pending"
    this is the sequence pending, running, completed or failed. *)
Theorem delivery_status_sequence (env : gmap string string) (agents : gmap string pyd)
    (http : Http) (store : Store) (workflow_id : string) (wf : Workflow.t) :
  store !! workflow_id = Some wf →
  let run := execute_workflow env agents http workflow_id (fresh_world store) in
  ∃ final, (final = "completed" ∨ final = "failed") ∧
    observed_statuses workflow_id (store_states store (events run.2)) =
      match run.1 with
      | inr _ => [Workflow.status wf; "running"; "running"; final]
      | inl _ => [Workflow.status wf; "running"]
      end.
Proof.
  intros Hl run.
  destruct (execute_workflow_run env agents http store workflow_id wf Hl)
    as (during & Hnc & Hrun).
  fold run in Hrun. unfold store_states, observed_statuses.
  destruct (run.1) as [e|[]].
  - exists "completed". split; [by left|]. rewrite Hrun.
    rewrite omap_app, (no_commit_no_state during Hnc). cbn.
    rewrite Hl, lookup_alter_eq, Hl. done.
  - destruct Hrun as (final & Hf & Hev). exists final. split; [done|].
    rewrite Hev. rewrite !omap_app, (no_commit_no_state during Hnc). cbn.
    rewrite !lookup_alter_eq, Hl. done.
Qed.

Lemma delivery_status_sequence_witness :
  ∃ final, (final = "completed" ∨ final = "failed") ∧
    observed_statuses "w1"
      (store_states (one_workflow "pending" two_tasks)
         (events (execute_workflow ∅ (worker_agents ∅) echo_http "w1"
                    (fresh_world (one_workflow "pending" two_tasks))).2)) =
      ["pending"; "running"; "running"; final].
Proof.
  destruct (delivery_status_sequence ∅ (worker_agents ∅) echo_http
              (one_workflow "pending" two_tasks) "w1"
              {| Workflow.id := "w1"; Workflow.name := "demo";
                 Workflow.tasks := two_tasks; Workflow.status := "pending";
                 Workflow.results := Some []; Workflow.user_id := 5 |})
    as (final & Hf & Hobs).
  - vm_compute. reflexivity.
  - exists final. split; [exact Hf|]. exact Hobs.
Defined.




(** * Further properties of the strategies *)

Lemma run_of_complete_loaded t survives ms log :
  run_of t survives ms log false →
  Forall (λ m, is_Some (loaded t !! agent_id m)) ms ∧ inv_agent <$> log = agent_id <$> ms.
Proof.
  remember false as stopped eqn:Hs.
  induction 1 as [|m ms i log stopped Hl Hid Hsv Hrun IH| |]; try done.
  destruct (IH Hs) as [Hall Hids]. split; [by constructor|].
  cbn. by rewrite Hid, Hids.
Qed.

Lemma run_of_invoked t survives ms log stopped :
  run_of t survives ms log stopped → (inv_agent <$> log) `prefix_of` (agent_id <$> ms).
Proof.
  induction 1 as [|m ms i log stopped Hl Hid Hsv Hrun IH|m ms i Hl Hid Hsv|m ms Hl]; cbn.
  - done.
  - rewrite Hid. by apply prefix_cons.
  - rewrite Hid. apply prefix_cons, prefix_nil.
  - apply prefix_nil.
Qed.

(** The sequential loop, in full: which members it calls, with what, when it
    stops, and what it returns. *)
Lemma pass_missing {A : Type} t (m : TeamMember) (ms : list TeamMember)
    (o : exn + A) (stopped : bool) (P : A → Prop) :
  match o with
  | inr r => P r
  | inl e => stopped = true ∧ ∃ m', m' ∈ ms ∧ loaded t !! agent_id m' = None
  end →
  match o with
  | inr r => P r
  | inl e => stopped = true ∧ ∃ m', m' ∈ m :: ms ∧ loaded t !! agent_id m' = None
  end.
Proof.
  destruct o as [e|r]; [|done]. intros [-> (m' & Hin & Hl)]. split; [done|].
  exists m'. split; [apply elem_of_cons; by right|done].
Qed.

Lemma sequential_loop_shape t task ms rs outs st :
  ∃ stopped new,
    invocations (sequential_loop t task ms rs outs st).2 = (invocations st ++ new)%list ∧
    run_of t survives_sequential ms new stopped ∧
    Forall (λ i, inv_input i = task) new ∧
    match (sequential_loop t task ms rs outs st).1 with
    | inr r => TeamResult.status r = verdict stopped ∧
               TeamResult.agent_results r = foldl record_invocation rs new
    | inl e => stopped = true ∧ ∃ m', m' ∈ ms ∧ loaded t !! agent_id m' = None
    end.
Proof.
  revert rs outs st. induction ms as [|m ms IH]; intros rs outs st.
  - exists false, []. cbn. rewrite app_nil_r. repeat split; constructor.
  - cbn [sequential_loop]. run_step.
    destruct (loaded t !! agent_id m) as [agent|] eqn:Hl; cbn.
    2:{ exists true, []. rewrite app_nil_r.
        split; [done|]. split; [by apply run_missing|]. split; [constructor|].
        split; [done|]. exists m. split; [apply elem_of_cons; by left|done]. }
    destruct (agent task (shared_data st)) as [[e|result] sd] eqn:Hcall; cbn.
    + destruct (required m) eqn:Hreq; cbn.
      * eexists true, [_]. split; [done|].
        split; [apply run_fatal; [by rewrite Hl|done|]|].
        { unfold survives_sequential, succeeded. cbn. by rewrite Hreq. }
        split; [by repeat constructor|]. done.
      * edestruct IH as (stopped & new & Hinv & Hrun & Hin & Hres).
        eexists stopped, (_ :: new). rewrite Hinv. cbn.
        split; [by rewrite <- app_assoc|].
        split; [apply run_next; [by rewrite Hl|done| |exact Hrun]|].
        { unfold survives_sequential. by rewrite Hreq. }
        split; [by constructor|]. by apply pass_missing.
    + destruct (String.eqb (AgentResult.status result) "success") eqn:Hok; cbn.
      * edestruct IH as (stopped & new & Hinv & Hrun & Hin & Hres).
        eexists stopped, (_ :: new). rewrite Hinv. cbn.
        split; [by rewrite <- app_assoc|].
        split; [apply run_next; [by rewrite Hl|done| |exact Hrun]|].
        { unfold survives_sequential, succeeded. cbn. rewrite Hok. apply orb_true_r. }
        split; [by constructor|]. by apply pass_missing.
      * destruct (required m) eqn:Hreq; cbn.
        -- eexists true, [_]. split; [done|].
           split; [apply run_fatal; [by rewrite Hl|done|]|].
           { unfold survives_sequential, succeeded. cbn. by rewrite Hreq, Hok. }
           split; [by repeat constructor|]. done.
        -- edestruct IH as (stopped & new & Hinv & Hrun & Hin & Hres).
           eexists stopped, (_ :: new). rewrite Hinv. cbn.
           split; [by rewrite <- app_assoc|].
           split; [apply run_next; [by rewrite Hl|done| |exact Hrun]|].
           { unfold survives_sequential. by rewrite Hreq. }
           split; [by constructor|]. by apply pass_missing.
Qed.

Lemma parallel_loop_shape t task ms rs outs st :
  ∃ stopped new,
    invocations (parallel_loop t task ms rs outs st).2 = (invocations st ++ new)%list ∧
    run_of t survives_parallel ms new stopped ∧
    Forall (λ i, inv_input i = task) new ∧
    match (parallel_loop t task ms rs outs st).1 with
    | inr r => TeamResult.status r = verdict stopped ∧
               TeamResult.agent_results r = foldl record_invocation rs new
    | inl e => stopped = true ∧ ∃ m', m' ∈ ms ∧ loaded t !! agent_id m' = None
    end.
Proof.
  revert rs outs st. induction ms as [|m ms IH]; intros rs outs st.
  - exists false, []. cbn. rewrite app_nil_r. repeat split; constructor.
  - cbn [parallel_loop]. run_step.
    destruct (loaded t !! agent_id m) as [agent|] eqn:Hl; cbn.
    2:{ exists true, []. rewrite app_nil_r.
        split; [done|]. split; [by apply run_missing|]. split; [constructor|].
        split; [done|]. exists m. split; [apply elem_of_cons; by left|done]. }
    destruct (agent task (shared_data st)) as [[e|result] sd] eqn:Hcall; cbn.
    + destruct (required m) eqn:Hreq; cbn.
      * eexists true, [_]. split; [done|].
        split; [apply run_fatal; [by rewrite Hl|done|]|].
        { unfold survives_parallel, raised. cbn. by rewrite Hreq. }
        split; [by repeat constructor|]. done.
      * edestruct IH as (stopped & new & Hinv & Hrun & Hin & Hres).
        eexists stopped, (_ :: new). rewrite Hinv. cbn.
        split; [by rewrite <- app_assoc|].
        split; [apply run_next; [by rewrite Hl|done| |exact Hrun]|].
        { unfold survives_parallel. by rewrite Hreq. }
        split; [by constructor|]. by apply pass_missing.
    + assert (∀ outs',
        ∃ stopped new,
          invocations (parallel_loop t task ms (dict_set (agent_id m) result rs) outs'
            {| shared_data := sd;
               invocations := invocations st ++
                 [{| inv_agent := agent_id m; inv_input := task;
                     inv_outcome := inr result |}] |}).2
            = (invocations st ++ new)%list ∧
          run_of t survives_parallel (m :: ms) new stopped ∧
          Forall (λ i, inv_input i = task) new ∧
          match (parallel_loop t task ms (dict_set (agent_id m) result rs) outs'
            {| shared_data := sd;
               invocations := invocations st ++
                 [{| inv_agent := agent_id m; inv_input := task;
                     inv_outcome := inr result |}] |}).1 with
          | inr r => TeamResult.status r = verdict stopped ∧
                     TeamResult.agent_results r =
                       foldl record_invocation rs new
          | inl e => stopped = true ∧ ∃ m', m' ∈ m :: ms ∧ loaded t !! agent_id m' = None
          end) as Hgo.
      { intros outs'.
        edestruct IH as (stopped & new & Hinv & Hrun & Hin & Hres).
        eexists stopped, (_ :: new). rewrite Hinv. cbn.
        split; [by rewrite <- app_assoc|].
        split; [apply run_next; [by rewrite Hl|done| |exact Hrun]|].
        { unfold survives_parallel, raised. cbn. apply orb_true_r. }
        split; [by constructor|]. by apply pass_missing. }
      destruct (String.eqb (AgentResult.status result) "success"); apply Hgo.
Qed.

Lemma pipeline_loop_shape t ms input rs st :
  ∃ stopped new,
    invocations (pipeline_loop t ms input rs st).2 = (invocations st ++ new)%list ∧
    run_of t survives_pipeline ms new stopped ∧
    (∀ k i, new !! k = Some i → inv_input i = foldl pass_on input (take k new)) ∧
    match (pipeline_loop t ms input rs st).1 with
    | inr r => TeamResult.status r = verdict stopped ∧
               TeamResult.agent_results r = foldl record_invocation rs new ∧
               TeamResult.outputs r = (if stopped then [] else foldl pass_on input new) ∧
               Forall (λ i, raised i = false) new
    | inl e => stopped = true ∧
               ((∃ i, last new = Some i ∧ inv_outcome i = inl e) ∨
                Forall (λ i, raised i = false) new)
    end.
Proof.
  revert input rs st. induction ms as [|m ms IH]; intros input rs st.
  - exists false, []. cbn. rewrite app_nil_r.
    split; [done|]. split; [constructor|]. split; [by intros [|k] i|].
    repeat split; constructor.
  - cbn [pipeline_loop]. run_step.
    destruct (loaded t !! agent_id m) as [agent|] eqn:Hl; cbn.
    2:{ exists true, []. rewrite app_nil_r.
        split; [done|]. split; [by apply run_missing|]. split; [by intros [|k] i|].
        split; [done|]. right. constructor. }
    destruct (agent input (shared_data st)) as [[e|result] sd] eqn:Hcall; cbn.
    + eexists true, [_]. split; [done|].
      split; [apply run_fatal; [by rewrite Hl|done|done]|].
      split; [intros [|[|k]] i; [by intros [= <-]|done|done]|].
      split; [done|]. left. eexists. split; [reflexivity|done].
    + destruct (String.eqb (AgentResult.status result) "success") eqn:Hok; cbn.
      * edestruct IH as (stopped & new & Hinv & Hrun & Hin & Hres).
        eexists stopped, (_ :: new). rewrite Hinv. cbn.
        split; [by rewrite <- app_assoc|].
        split; [apply run_next; [by rewrite Hl|done| |exact Hrun]|].
        { unfold survives_pipeline, raised, succeeded. cbn. rewrite Hok. apply orb_true_r. }
        split.
        { intros [|k] i; cbn; [by intros [= <-]|]. intros Hk.
          rewrite (Hin k i Hk). by rewrite Hok. }
        destruct (pipeline_loop _ _ _ _ _).1 as [e|r].
        -- destruct Hres as [-> [(i & Hlast & Hi)|Hnr]]; (split; [done|]).
           ++ left. exists i. split; [|done]. destruct new; [done|]. exact Hlast.
           ++ right. by constructor.
        -- destruct Hres as (Hs & Hrs & Hout & Hnr). split; [done|]. split; [done|].
           split; [|by constructor].
           rewrite Hout. destruct stopped; [done|]. cbn. by rewrite Hok.
      * destruct (required m) eqn:Hreq; cbn.
        -- eexists true, [_]. split; [done|].
           split; [apply run_fatal; [by rewrite Hl|done|]|].
           { unfold survives_pipeline, raised, succeeded. cbn. by rewrite Hreq, Hok. }
           split; [intros [|[|k]] i; [by intros [= <-]|done|done]|].
           repeat split; by repeat constructor.
        -- edestruct IH as (stopped & new & Hinv & Hrun & Hin & Hres).
           eexists stopped, (_ :: new). rewrite Hinv. cbn.
           split; [by rewrite <- app_assoc|].
           split; [apply run_next; [by rewrite Hl|done| |exact Hrun]|].
           { unfold survives_pipeline, raised. cbn. by rewrite Hreq. }
           split.
           { intros [|k] i; cbn; [by intros [= <-]|]. intros Hk.
             rewrite (Hin k i Hk). by rewrite Hok. }
           destruct (pipeline_loop _ _ _ _ _).1 as [e|r].
           ++ destruct Hres as [-> [(i & Hlast & Hi)|Hnr]]; (split; [done|]).
              ** left. exists i. split; [|done]. destruct new; [done|]. exact Hlast.
              ** right. by constructor.
           ++ destruct Hres as (Hs & Hrs & Hout & Hnr). split; [done|]. split; [done|].
              split; [|by constructor].
              rewrite Hout. destruct stopped; [done|]. cbn. by rewrite Hok.
Qed.




Lemma consensus_unfold t task st :
  _execute_consensus t task st =
    match _execute_parallel t task st with
    | (inr r, st') =>
        (inr {| TeamResult.team_id := TeamResult.team_id r;
                TeamResult.status := TeamResult.status r;
                TeamResult.outputs :=
                  dict_set "consensus"
                    (PDict (_aggregate_outputs (TeamResult.agent_results r)))
                    (TeamResult.outputs r);
                TeamResult.agent_results := TeamResult.agent_results r;
                TeamResult.metadata := TeamResult.metadata r;
                TeamResult.error := TeamResult.error r;
                TeamResult.agents_executed := TeamResult.agents_executed r |}, st')
    | (inl e, st') => (inl e, st')
    end.
Proof.
  unfold _execute_consensus, bind, ret.
  by destruct (_execute_parallel t task st) as [[e|r] st'].
Qed.



(** X3.  A PIPELINE run walks through the members in priority order and
    stops at the first member whose call raises, required or not, and at
    the first required member that returns anything but a success (or at a
    member that is not loaded).  The status is "error" when it stopped and
    "success" otherwise.  When the run ended because the last call raised,
    the result carries that exception's message and none of the results the
    earlier stages returned. *)
Theorem pipeline_verdict (t : Team) (task : pyd) :
  strategy (config t) = Strategy PIPELINE →
  ∃ r st stopped,
    execute t task = (inr r, st) ∧
    run_of t survives_pipeline (py_sorted_desc priority (members (config t)))
      (invocations st) stopped ∧
    TeamResult.status r = verdict stopped ∧
    (∀ i e, last (invocations st) = Some i → inv_outcome i = inl e →
       TeamResult.error r = Some (exn_str e) ∧
       TeamResult.agent_results r = [] ∧
       TeamResult.agents_executed r = 0%nat).
Proof.
  intros Hs. rewrite execute_unfold. unfold dispatch. rewrite Hs.
  unfold _execute_pipeline.
  destruct (pipeline_loop_shape t (py_sorted_desc priority (members (config t)))
              task [] (initial_state t))
    as (stopped & new & Hinv & Hrun & _ & Hres).
  cbn in Hinv.
  destruct (pipeline_loop _ _ _ _ _) as [[e|r] st]; cbn in *; subst new.
  - destruct Hres as [-> Hwhy].
    eexists _, st, true. split; [reflexivity|]. split; [done|]. split; [done|].
    intros i e' Hlast Hi. destruct Hwhy as [(i' & Hlast' & Hi')|Hnr].
    + rewrite Hlast in Hlast'. injection Hlast' as <-.
      rewrite Hi in Hi'. injection Hi' as <-. done.
    + apply last_Some in Hlast as (l' & Hl'). rewrite Hl' in Hnr.
      apply Forall_app in Hnr as [_ Hnr]. apply Forall_cons in Hnr as [Hnr _].
      unfold raised in Hnr. by rewrite Hi in Hnr.
  - destruct Hres as (Hst & Hrs & Hout & Hnr).
    eexists _, st, stopped. split; [reflexivity|]. split; [done|]. split; [done|].
    intros i e' Hlast Hi.
    apply last_Some in Hlast as (l' & Hl'). rewrite Hl' in Hnr.
    apply Forall_app in Hnr as [_ Hnr]. apply Forall_cons in Hnr as [Hnr _].
    unfold raised in Hnr. by rewrite Hi in Hnr.
Qed.

Lemma pipeline_verdict_witness :
  ∃ r st stopped,
    execute (optional_raise PIPELINE) [] = (inr r, st) ∧
    run_of (optional_raise PIPELINE) survives_pipeline
      (py_sorted_desc priority (members (config (optional_raise PIPELINE))))
      (invocations st) stopped ∧
    TeamResult.status r = verdict stopped.
Proof.
  destruct (pipeline_verdict (optional_raise PIPELINE) [])
    as (r & st & stopped & Hr & Hrun & Hs & _); [reflexivity|].
  exists r, st, stopped. split; [exact Hr|]. split; [exact Hrun|exact Hs].
Defined.



(** ** LEADER_FOLLOWER *)

Lemma py_max_from_split {A : Type} (key : A → Z) (l pre0 post0 : list A) (best : A) :
  Forall (λ x, key x < key best) pre0 →
  Forall (λ x, key x ≤ key best) post0 →
  ∃ pre post,
    (pre0 ++ best :: post0 ++ l = pre ++ py_max_from key best l :: post)%list ∧
    Forall (λ x, key x < key (py_max_from key best l)) pre ∧
    Forall (λ x, key x ≤ key (py_max_from key best l)) post.
Proof.
  revert pre0 post0 best. induction l as [|x l IH]; intros pre0 post0 best Hpre Hpost.
  - exists pre0, post0. cbn. by rewrite app_nil_r.
  - cbn [py_max_from]. destruct (Z.ltb_spec (key best) (key x)) as [Hlt|Hge].
    + destruct (IH (pre0 ++ best :: post0)%list [] x) as (pre & post & Heq & H1 & H2).
      * apply Forall_app. split.
        -- eapply Forall_impl; [exact Hpre|]. cbn. intros; lia.
        -- constructor; [done|]. eapply Forall_impl; [exact Hpost|]. cbn. intros; lia.
      * constructor.
      * exists pre, post. split; [|done]. rewrite <- Heq. cbn.
        by rewrite <- app_assoc.
    + destruct (IH pre0 (post0 ++ [x])%list best) as (pre & post & Heq & H1 & H2).
      * done.
      * apply Forall_app. split; [done|]. by repeat constructor.
      * exists pre, post. split; [|done]. rewrite <- Heq.
        by rewrite <- (app_assoc post0 [x] l).
Qed.

(** [max(members, key=priority)] picks the first member of the highest
    priority. *)
Lemma py_max_first {A : Type} (key : A → Z) (x : A) (l : list A) :
  ∃ leader pre post,
    py_max key (x :: l) = inr leader ∧
    x :: l = (pre ++ leader :: post)%list ∧
    Forall (λ m, key m < key leader) pre ∧
    Forall (λ m, key m ≤ key leader) post.
Proof.
  destruct (py_max_from_split key l [] [] x) as (pre & post & Heq & H1 & H2);
    [constructor|constructor|].
  exists (py_max_from key x l), pre, post. done.
Qed.

Lemma follower_loop_shape t task leader ms rs st :
  Forall (λ m, agent_id m ≠ agent_id leader) ms →
  ∃ stopped new,
    invocations (follower_loop t task ms rs st).2 = (invocations st ++ new)%list ∧
    run_of t (survives_leader_follower leader) ms new stopped ∧
    Forall (λ i, inv_input i = task) new ∧
    match (follower_loop t task ms rs st).1 with
    | inr rs' => stopped = false ∧ rs' = foldl record_invocation rs new
    | inl e => stopped = true
    end.
Proof.
  intros Hne. revert rs st. induction ms as [|m ms IH]; intros rs st.
  - exists false, []. cbn. rewrite app_nil_r. repeat split; constructor.
  - apply Forall_cons in Hne as [Hm Hne]. specialize (IH Hne).
    cbn [follower_loop]. run_step.
    destruct (loaded t !! agent_id m) as [agent|] eqn:Hl; cbn.
    2:{ exists true, []. rewrite app_nil_r. repeat split; [by apply run_missing|constructor]. }
    assert (String.eqb (agent_id m) (agent_id leader) = false) as Hneq
      by by apply String.eqb_neq.
    destruct (agent task (shared_data st)) as [[e|result] sd] eqn:Hcall; cbn.
    + eexists true, [_]. split; [done|].
      split; [apply run_fatal; [by rewrite Hl|done|]|].
      { unfold survives_leader_follower, raised. cbn. by rewrite Hneq. }
      split; [by repeat constructor|]. done.
    + edestruct IH as (stopped & new & Hinv & Hrun & Hin & Hres).
      eexists stopped, (_ :: new). rewrite Hinv. cbn.
      split; [by rewrite <- app_assoc|].
      split; [apply run_next; [by rewrite Hl|done| |exact Hrun]|].
      { unfold survives_leader_follower, raised. cbn. by rewrite Hneq. }
      split; [by constructor|]. exact Hres.
Qed.

Lemma followers_differ (leader : TeamMember) (ms : list TeamMember) :
  Forall (λ m, agent_id m ≠ agent_id leader)
    (List.filter (λ m, negb (String.eqb (agent_id m) (agent_id leader))) ms).
Proof.
  apply Forall_forall. intros m Hin. apply list_elem_of_In, filter_In in Hin as [_ Hm].
  apply negb_true_iff in Hm. by apply String.eqb_neq.
Qed.

(** The leader-follower handler, in full. *)
Lemma leader_follower_shape t task leader :
  py_max priority (members (config t)) = inr leader →
  let followers :=
    List.filter (λ m, negb (String.eqb (agent_id m) (agent_id leader)))
      (members (config t)) in
  ∃ stopped,
    run_of t (survives_leader_follower leader) (leader :: followers)
      (invocations (_execute_leader_follower t task (initial_state t)).2) stopped ∧
    Forall (λ i, inv_input i = task)
      (invocations (_execute_leader_follower t task (initial_state t)).2) ∧
    match (_execute_leader_follower t task (initial_state t)).1 with
    | inr r =>
        TeamResult.status r = verdict stopped ∧
        (stopped = false →
         ∃ i result, head (invocations
                        (_execute_leader_follower t task (initial_state t)).2) = Some i ∧
           inv_outcome i = inr result ∧
           TeamResult.outputs r = [("leader", PDict (AgentResult.outputs result))])
    | inl e => stopped = true
    end.
Proof.
  intros Hmax followers. unfold _execute_leader_follower.
  unfold bind at 1. unfold lift at 1. rewrite Hmax. fold followers.
  run_step.
  destruct (loaded t !! agent_id leader) as [agent|] eqn:Hl; cbn.
  2:{ exists true. split; [by apply run_missing|]. split; [constructor|done]. }
  destruct (agent task (shared_context (config t))) as [[e|result] sd] eqn:Hcall; cbn.
  - exists true. split; [|split; [by repeat constructor|done]].
    apply run_fatal; [by rewrite Hl|done|].
    unfold survives_leader_follower, succeeded. cbn. by rewrite String.eqb_refl.
  - destruct (String.eqb (AgentResult.status result) "success") eqn:Hok; cbn.
    2:{ exists true. split; [|split; [by repeat constructor|done]].
        apply run_fatal; [by rewrite Hl|done|].
        unfold survives_leader_follower, succeeded. cbn.
        by rewrite String.eqb_refl, Hok. }
    subst followers.
    set (st1 := {| shared_data := _; invocations := _ |}).
    destruct (follower_loop_shape t task leader
                (List.filter (λ m, negb (String.eqb (agent_id m) (agent_id leader)))
                   (members (config t)))
                [(agent_id leader, result)] st1 (followers_differ _ _))
      as (stopped & new & Hinv & Hrun & Hin & Hres).
    destruct (follower_loop _ _ _ _ _) as [[e|rs'] st'] eqn:Hf; cbn in *.
    + subst stopped. exists true. rewrite Hinv. split; [|split; [by constructor|done]].
      apply run_next; [by rewrite Hl|done| |exact Hrun].
      unfold survives_leader_follower, succeeded. cbn.
      by rewrite String.eqb_refl, Hok.
    + destruct Hres as [-> ->]. exists false. rewrite Hinv.
      split; [|split; [by constructor|]].
      * apply run_next; [by rewrite Hl|done| |exact Hrun].
        unfold survives_leader_follower, succeeded. cbn.
        by rewrite String.eqb_refl, Hok.
      * split; [done|]. intros _. eexists _, result. done.
Qed.

(** X5.  A LEADER_FOLLOWER run calls the first member of the highest
    priority, the leader, and then, in configuration order, the members
    whose agent id differs from the leader's.  It stops after the leader
    unless the leader returned a success, whether or not the leader is
    configured as required, and it stops at a follower only when that
    follower raises (or is not loaded); a follower's returned result,
    whatever its status and whatever its [required] flag, lets the run go on.
    The status is "error" when it stopped and "success" otherwise, in which
    case the team's outputs are the leader's outputs under the key
    "leader". *)
Theorem leader_follower_verdict (t : Team) (task : pyd) :
  strategy (config t) = Strategy LEADER_FOLLOWER →
  members (config t) ≠ [] →
  ∃ leader pre post r st stopped,
    members (config t) = (pre ++ leader :: post)%list ∧
    Forall (λ m, priority m < priority leader) pre ∧
    Forall (λ m, priority m ≤ priority leader) post ∧
    execute t task = (inr r, st) ∧
    run_of t (survives_leader_follower leader)
      (leader :: List.filter (λ m, negb (String.eqb (agent_id m) (agent_id leader)))
                   (members (config t)))
      (invocations st) stopped ∧
    TeamResult.status r = verdict stopped ∧
    (stopped = false →
     ∃ i result, head (invocations st) = Some i ∧ inv_outcome i = inr result ∧
       TeamResult.outputs r = [("leader", PDict (AgentResult.outputs result))]).
Proof.
  intros Hs Hne.
  destruct (members (config t)) as [|x l] eqn:Hms; [done|].
  destruct (py_max_first priority x l) as (leader & pre & post & Hmax & Hsplit & H1 & H2).
  rewrite <- Hms in Hmax, Hsplit |- *.
  destruct (leader_follower_shape t task leader Hmax) as (stopped & Hrun & _ & Hres).
  exists leader, pre, post.
  rewrite execute_unfold. unfold dispatch. rewrite Hs.
  destruct (_execute_leader_follower t task (initial_state t)) as [[e|r] st]; cbn in *.
  - subst stopped. eexists _, st, true. repeat split; try done.
  - destruct Hres as [Hst Hout]. eexists _, st, stopped. repeat split; try done.
Qed.

Lemma leader_follower_verdict_witness :
  ∃ leader pre post r st stopped,
    members (config follower_failure) = (pre ++ leader :: post)%list ∧
    Forall (λ m, priority m < priority leader) pre ∧
    Forall (λ m, priority m ≤ priority leader) post ∧
    execute follower_failure [] = (inr r, st) ∧
    run_of follower_failure (survives_leader_follower leader)
      (leader :: List.filter (λ m, negb (String.eqb (agent_id m) (agent_id leader)))
                   (members (config follower_failure)))
      (invocations st) stopped ∧
    TeamResult.status r = verdict stopped.
Proof.
  destruct (leader_follower_verdict follower_failure [])
    as (leader & pre & post & r & st & stopped & H1 & H2 & H3 & H4 & H5 & H6 & _).
  - reflexivity.
  - discriminate.
  - exists leader, pre, post, r, st, stopped. repeat split; assumption.
Defined.



(** ** Loading the members *)

Lemma load_members_spec (registry : gmap string Agent) (ms : list TeamMember)
    (acc : gmap string Agent) :
  match _load_members registry ms acc with
  | inr ld =>
      Forall (λ m, required m = true → is_Some (registry !! agent_id m)) ms ∧
      ∀ id, ld !! id =
              match (if decide (id ∈ agent_id <$> ms) then registry !! id else None) with
              | Some a => Some a
              | None => acc !! id
              end
  | inl e =>
      ∃ pre m post,
        ms = (pre ++ m :: post)%list ∧
        Forall (λ m', required m' = true → is_Some (registry !! agent_id m')) pre ∧
        required m = true ∧ registry !! agent_id m = None ∧
        e = ValueError ("Agent not found: " +:+ agent_id m)
  end.
Proof.
  revert acc. induction ms as [|m ms IH]; intros acc; cbn [_load_members].
  - split; [constructor|]. intros id. cbn. by rewrite decide_False by apply not_elem_of_nil.
  - unfold AgentRegistry.get_agent. unfold Agent in *.
    destruct (registry !! agent_id m) as [agent|] eqn:Hreg.
    + specialize (IH (<[agent_id m := agent]> acc)).
      destruct (_load_members registry ms _) as [e|ld].
      * destruct IH as (pre & m' & post & -> & Hpre & Hreq & Hnone & ->).
        exists (m :: pre), m', post. split; [done|].
        split; [constructor; [by rewrite Hreg|done]|done].
      * destruct IH as [Hall Hld]. split; [constructor; [by rewrite Hreg|done]|].
        intros id. rewrite Hld, fmap_cons.
        destruct (decide (id ∈ agent_id <$> ms)) as [Hin|Hin];
          destruct (decide (id ∈ agent_id m :: (agent_id <$> ms))) as [Hin'|Hin'].
        -- destruct (registry !! id) eqn:Hid; [done|].
           rewrite lookup_insert_ne; [done|]. intros <-. by rewrite Hreg in Hid.
        -- exfalso. apply Hin', elem_of_cons. by right.
        -- apply elem_of_cons in Hin' as [->|?]; [|done].
           by rewrite Hreg, lookup_insert_eq.
        -- rewrite lookup_insert_ne; [done|]. intros <-. apply Hin', elem_of_cons. by left.
    + destruct (required m) eqn:Hreq.
      * exists [], m, ms. split; [done|]. split; [constructor|done].
      * specialize (IH acc). destruct (_load_members registry ms acc) as [e|ld].
        -- destruct IH as (pre & m' & post & -> & Hpre & Hreq' & Hnone & ->).
           exists (m :: pre), m', post. split; [done|].
           split; [constructor; [by rewrite Hreq|done]|done].
        -- destruct IH as [Hall Hld]. split; [constructor; [by rewrite Hreq|done]|].
           intros id. rewrite Hld, fmap_cons.
           destruct (decide (id ∈ agent_id <$> ms)) as [Hin|Hin];
             destruct (decide (id ∈ agent_id m :: (agent_id <$> ms))) as [Hin'|Hin'].
           ++ done.
           ++ exfalso. apply Hin', elem_of_cons. by right.
           ++ apply elem_of_cons in Hin' as [->|?]; [|done]. by rewrite Hreg.
           ++ done.
Qed.

Lemma new_team_loads_aux (cfg : TeamConfiguration) (registry : gmap string Agent) :
  match new_team cfg registry with
  | inr t =>
      config t = cfg ∧
      Forall (λ m, required m = true → is_Some (registry !! agent_id m)) (members cfg) ∧
      ∀ id, loaded t !! id =
              if decide (id ∈ agent_id <$> members cfg) then registry !! id else None
  | inl e =>
      ∃ pre m post,
        members cfg = (pre ++ m :: post)%list ∧
        Forall (λ m', required m' = true → is_Some (registry !! agent_id m')) pre ∧
        required m = true ∧ registry !! agent_id m = None ∧
        e = ValueError ("Agent not found: " +:+ agent_id m)
  end.
Proof.
  unfold new_team.
  pose proof (load_members_spec registry (members cfg) ∅) as Hspec.
  destruct (_load_members registry (members cfg) ∅) as [e|ld]; [done|].
  destruct Hspec as [Hall Hld]. split; [done|]. split; [done|].
  intros id. cbn. rewrite Hld, lookup_empty.
  case_decide; [|done]. by destruct (registry !! id).
Qed.

(** X7.  Building a team fails exactly when a required member is missing
    from the registry, with the [ValueError] of the first such member.
    Otherwise the team holds the agent of every configured member that the
    registry knows and of no one else: an optional member that is missing is
    left out without a word to the caller. *)
Theorem new_team_loads (cfg : TeamConfiguration) (registry : gmap string Agent) :
  match new_team cfg registry with
  | inr t =>
      config t = cfg ∧
      Forall (λ m, required m = true → is_Some (registry !! agent_id m)) (members cfg) ∧
      ∀ id, loaded t !! id =
              if decide (id ∈ agent_id <$> members cfg) then registry !! id else None
  | inl e =>
      ∃ pre m post,
        members cfg = (pre ++ m :: post)%list ∧
        Forall (λ m', required m' = true → is_Some (registry !! agent_id m')) pre ∧
        required m = true ∧ registry !! agent_id m = None ∧
        e = ValueError ("Agent not found: " +:+ agent_id m)
  end.
Proof. exact (new_team_loads_aux cfg registry). Qed.

Lemma stopped_if_missing t survives ms log stopped m :
  run_of t survives ms log stopped →
  m ∈ ms → loaded t !! agent_id m = None → stopped = true.
Proof.
  intros Hrun Hin Hnone. destruct stopped; [done|].
  apply run_of_complete_loaded in Hrun as [Hall _].
  rewrite Forall_forall in Hall. destruct (Hall m Hin) as [a Ha]. by rewrite Ha in Hnone.
Qed.

(** A member that is not loaded makes every run end in "error". *)
Lemma unloaded_member_fails t task m :
  m ∈ members (config t) → loaded t !! agent_id m = None →
  ∃ r st, execute t task = (inr r, st) ∧ TeamResult.status r = "error".
Proof.
  intros Hin Hnone. rewrite execute_unfold.
  destruct (dispatch t task (initial_state t)) as [[e|r] st] eqn:Hd; [by eauto|].
  exists (count_agents r), st. split; [done|]. cbn.
  unfold dispatch in Hd. destruct (strategy (config t)) as [[]|v] eqn:Hs.
  - unfold _execute_sequential in Hd.
    destruct (sequential_loop_shape t task
                (py_sorted_desc priority (members (config t))) [] [] (initial_state t))
      as (stopped & new & _ & Hrun & _ & Hres).
    rewrite Hd in Hres. cbn in Hres. destruct Hres as [-> _].
    erewrite (stopped_if_missing _ _ _ _ stopped m Hrun); [done| |done].
    by rewrite py_sorted_desc_perm.
  - unfold _execute_parallel in Hd.
    destruct (parallel_loop_shape t task (members (config t)) [] [] (initial_state t))
      as (stopped & new & _ & Hrun & _ & Hres).
    rewrite Hd in Hres. cbn in Hres. destruct Hres as [-> _].
    by erewrite (stopped_if_missing _ _ _ _ stopped m Hrun).
  - rewrite consensus_unfold in Hd.
    destruct (parallel_loop_shape t task (members (config t)) [] [] (initial_state t))
      as (stopped & new & _ & Hrun & _ & Hres).
    fold (_execute_parallel t task (initial_state t)) in Hres.
    destruct (_execute_parallel t task (initial_state t)) as [[e|r0] st0]; [done|].
    injection Hd as <- <-. cbn in *. destruct Hres as [-> _].
    by erewrite (stopped_if_missing _ _ _ _ stopped m Hrun).
  - destruct (py_max priority (members (config t))) as [e|leader] eqn:Hmax.
    { unfold _execute_leader_follower, bind, lift in Hd. by rewrite Hmax in Hd. }
    destruct (leader_follower_shape t task leader Hmax) as (stopped & Hrun & _ & Hres).
    rewrite Hd in Hrun, Hres. cbn in Hrun, Hres. destruct Hres as [-> _].
    destruct stopped; [done|]. exfalso.
    apply run_of_complete_loaded in Hrun as [Hall _].
    apply Forall_cons in Hall as [[a Ha] Hall].
    destruct (String.eqb_spec (agent_id m) (agent_id leader)) as [Heq|Hne].
    + rewrite Heq in Hnone. by rewrite Ha in Hnone.
    + rewrite Forall_forall in Hall.
      destruct (Hall m) as [a' Ha']; [|by rewrite Ha' in Hnone].
      apply list_elem_of_In, filter_In. split; [by apply list_elem_of_In|].
      apply negb_true_iff. by apply String.eqb_neq.
  - unfold _execute_pipeline in Hd.
    destruct (pipeline_loop_shape t (py_sorted_desc priority (members (config t)))
                task [] (initial_state t))
      as (stopped & new & _ & Hrun & _ & Hres).
    rewrite Hd in Hres. cbn in Hres. destruct Hres as [-> _].
    erewrite (stopped_if_missing _ _ _ _ stopped m Hrun); [done| |done].
    by rewrite py_sorted_desc_perm.
  - done.
Qed.

(** X8.  A team that was built although one of its members is missing from
    the registry (the member is optional, then) cannot succeed: every call
    of [execute], under every strategy, returns a result with status
    "error". *)
Theorem missing_member_fails_every_run (cfg : TeamConfiguration)
    (registry : gmap string Agent) (t : Team) (m : TeamMember) (task : pyd) :
  new_team cfg registry = inr t →
  m ∈ members cfg → registry !! agent_id m = None →
  ∃ r st, execute t task = (inr r, st) ∧ TeamResult.status r = "error".
Proof.
  intros Hnew Hin Hnone.
  pose proof (new_team_loads_aux cfg registry) as Hspec.
  rewrite Hnew in Hspec. destruct Hspec as (Hcfg & _ & Hld).
  apply (unloaded_member_fails t task m).
  - by rewrite Hcfg.
  - rewrite Hld. case_decide; done.
Qed.

Lemma missing_member_fails_every_run_witness :
  ∃ r st,
    execute {| config := config (optional_raise SEQUENTIAL); loaded := ∅ |} [] = (inr r, st) ∧
    TeamResult.status r = "error".
Proof.
  apply (missing_member_fails_every_run (config (optional_raise SEQUENTIAL)) ∅
           {| config := config (optional_raise SEQUENTIAL); loaded := ∅ |}
           (member "A" 1 false) []).
  - reflexivity.
  - apply elem_of_cons. by left.
  - reflexivity.
Defined.

(** ** Aggregation for CONSENSUS *)

Lemma grouped_get (aggregated : pyd) (key : string) :
  grouped aggregated →
  dict_get key aggregated =
    match collected key aggregated with
    | [] => None
    | vs => Some (PList vs)
    end.
Proof.
  intros Hg. unfold collected. destruct (Hg key) as [Hn|(l & Hl & Hs)].
  - by rewrite Hn.
  - rewrite Hs. by destruct l.
Qed.

Lemma aggregate_item_get (aggregated : pyd) (k k' : string) (v : pyval) :
  grouped aggregated →
  dict_get k' (aggregate_item aggregated (k, v)) =
    if decide (k = k') then Some (PList (collected k aggregated ++ [v]))
    else dict_get k' aggregated.
Proof.
  intros Hg. unfold aggregate_item, collected. cbn.
  destruct (Hg k) as [Hn|(l & Hl & Hs)]; unfold pydict in *.
  - rewrite Hn. rewrite dict_get_set_eq. case_decide as Hk.
    + subst k'. by rewrite dict_get_set_eq.
    + by rewrite !dict_get_set_ne.
  - rewrite Hs. cbn match. rewrite Hs. case_decide as Hk.
    + subst k'. by rewrite dict_get_set_eq.
    + by rewrite dict_get_set_ne.
Qed.

Lemma aggregate_item_grouped (aggregated : pyd) (item : string * pyval) :
  grouped aggregated → grouped (aggregate_item aggregated item).
Proof.
  intros Hg k'. destruct item as [k v]. rewrite aggregate_item_get by done.
  case_decide; [|apply Hg]. right. eexists. split; [|done].
  by destruct (collected k aggregated).
Qed.

Lemma aggregate_outputs_get (outs aggregated : pyd) (key : string) :
  grouped aggregated → NoDup (dict_keys outs) →
  grouped (fold_left aggregate_item outs aggregated) ∧
  collected key (fold_left aggregate_item outs aggregated) =
    (collected key aggregated ++ option_list (dict_get key outs))%list.
Proof.
  revert aggregated. induction outs as [|[k v] outs IH]; intros aggregated Hg Hnd.
  - cbn. by rewrite app_nil_r.
  - cbn [fold_left]. cbn in Hnd. apply NoDup_cons in Hnd as [Hk Hnd].
    destruct (IH (aggregate_item aggregated (k, v))) as [Hg' Hc];
      [by apply aggregate_item_grouped|done|].
    split; [done|]. rewrite Hc. unfold collected at 1.
    rewrite aggregate_item_get by done. cbn [dict_get].
    destruct (String.eqb_spec k key) as [->|Hne].
    + rewrite decide_True by done.
      assert (dict_get key outs = None) as -> by by apply dict_get_None.
      cbn. by rewrite app_nil_r.
    + rewrite decide_False by done. done.
Qed.

Lemma aggregate_results_get (rs : pydict AgentResult.t) (aggregated : pyd) (key : string) :
  grouped aggregated →
  Forall (λ entry, NoDup (dict_keys (AgentResult.outputs entry.2))) rs →
  let final :=
    fold_left
      (λ aggregated entry,
         if String.eqb (AgentResult.status entry.2) "success"
         then fold_left aggregate_item (AgentResult.outputs entry.2) aggregated
         else aggregated)
      rs aggregated in
  grouped final ∧
  collected key final = (collected key aggregated ++ contributions key rs)%list.
Proof.
  intros Hg Hnd. revert aggregated Hg.
  induction Hnd as [|entry rs Hentry Hnd IH]; intros aggregated Hg; cbn.
  - by rewrite app_nil_r.
  - destruct (String.eqb (AgentResult.status entry.2) "success") eqn:Hok.
    + destruct (aggregate_outputs_get (AgentResult.outputs entry.2) aggregated key Hg Hentry)
        as [Hg' Hc].
      destruct (IH _ Hg') as [Hg'' Hc'']. split; [done|].
      rewrite Hc'', Hc. unfold contributions.
      rewrite <- app_assoc. by destruct (dict_get key (AgentResult.outputs entry.2)).
    + destruct (IH _ Hg) as [Hg'' Hc'']. split; [done|].
      by rewrite Hc''.
Qed.

(** X9.  [_aggregate_outputs] groups by key: under each key it holds the
    list of the values that the successful results have under that key, in
    the order of the results; results that are not a success contribute
    nothing, and a key that no successful result has is absent.  (The
    outputs of a result are a dictionary, so its keys are distinct.) *)
Theorem aggregate_outputs_groups (rs : pydict AgentResult.t) (key : string) :
  Forall (λ entry, NoDup (dict_keys (AgentResult.outputs entry.2))) rs →
  dict_get key (_aggregate_outputs rs) =
    match contributions key rs with
    | [] => None
    | vs => Some (PList vs)
    end.
Proof.
  intros Hnd. unfold _aggregate_outputs.
  destruct (aggregate_results_get rs [] key) as [Hg Hc]; [by left|done|].
  cbn in Hg, Hc. by rewrite (grouped_get _ key Hg), Hc.
Qed.

Lemma aggregate_outputs_groups_witness :
  dict_get "z"
    (_aggregate_outputs
       [("B", {| AgentResult.status := "success"; AgentResult.outputs := [("z", PInt 3)];
                 AgentResult.error := None |});
        ("E", {| AgentResult.status := "error"; AgentResult.outputs := [("z", PInt 9)];
                 AgentResult.error := Some "boom" |});
        ("A", {| AgentResult.status := "success";
                 AgentResult.outputs := [("y", PInt 1); ("z", PInt 2)];
                 AgentResult.error := None |})])
    = Some (PList [PInt 3; PInt 2]).
Proof.
  apply (aggregate_outputs_groups
           [("B", {| AgentResult.status := "success"; AgentResult.outputs := [("z", PInt 3)];
                     AgentResult.error := None |});
            ("E", {| AgentResult.status := "error"; AgentResult.outputs := [("z", PInt 9)];
                     AgentResult.error := Some "boom" |});
            ("A", {| AgentResult.status := "success";
                     AgentResult.outputs := [("y", PInt 1); ("z", PInt 2)];
                     AgentResult.error := None |})] "z").
  repeat constructor; cbn; try (intros Hin; repeat (apply elem_of_cons in Hin as [Hin|Hin];
    [discriminate Hin|]); by apply elem_of_nil in Hin).
Defined.

(** * Further properties of the workflow manager *)

Section WorkflowOutcome.
Context (env : gmap string string) (agents : gmap string pyd) (http : Http).

(** The tasks that are answered only move the loop forward. *)
Lemma task_loop_answered (workflow_id : string) (user_id : Z)
    (pre rest : list Task.t) (answers results : list pyval) (w : World) :
  Forall2 (λ task r, task_answer env agents http task = Some r) pre answers →
  task_loop env agents http workflow_id user_id (pre ++ rest) results w =
    task_loop env agents http workflow_id user_id rest (results ++ answers)
      {| db := db w;
         events := (events w ++
                    concat (answered_events env agents workflow_id user_id <$> pre))%list |}.
Proof.
  intros Hans. revert results w.
  induction Hans as [|task r pre answers Htask Hans IH]; intros results w.
  - cbn. rewrite !app_nil_r. by destruct w.
  - cbn [app task_loop]. unfold task_answer in Htask.
    destruct (truthy (AgentManager.get_agent_url env agents (Task.agent_id task)))
      eqn:Hurl; [|done]. cbn.
    destruct (http (AgentManager.get_agent_url env agents (Task.agent_id task))
                (Task.task_details task)) as [result| | |] eqn:Hpost; try done.
    injection Htask as ->.
    unfold bind at 1. unfold attempt, try_except, post, bind, emit, lift, log_event, ret.
    cbn. rewrite Hpost. cbn. rewrite IH. cbn.
    by rewrite <- !app_assoc.
Qed.

Lemma answered_events_posts (workflow_id : string) (user_id : Z) (pre : list Task.t) :
  length (List.filter is_post
            (concat (answered_events env agents workflow_id user_id <$> pre))) = length pre.
Proof. induction pre as [|task pre IH]; [done|]. cbn. by rewrite IH. Qed.

Lemma answered_events_no_finish (workflow_id : string) (user_id : Z) (pre : list Task.t) :
  List.filter is_finished_event
    (concat (answered_events env agents workflow_id user_id <$> pre)) = [].
Proof. induction pre as [|task pre IH]; [done|]. cbn. by rewrite IH. Qed.

Lemma row_after_run (store : Store) (workflow_id : string) (wf : Workflow.t)
    (final : string) (results : list pyval) :
  store !! workflow_id = Some wf →
  alter (Workflow.with_status final) workflow_id
    (alter (Workflow.with_results results) workflow_id
       (alter (Workflow.with_status "running") workflow_id store)) !! workflow_id
    = Some (finished_row wf final results).
Proof. intros Hl. rewrite !lookup_alter_eq, Hl. done. Qed.

(** X10.  When every task of a workflow is answered (its agent resolves and
    the service responds), [execute_workflow] returns normally, posts once
    per task, and leaves the workflow "completed" with the answers as its
    results, in task order. *)
Theorem answered_workflow_completes (store : Store) (workflow_id : string)
    (wf : Workflow.t) (answers : list pyval) :
  store !! workflow_id = Some wf →
  Forall2 (λ task r, task_answer env agents http task = Some r) (Workflow.tasks wf) answers →
  let run := execute_workflow env agents http workflow_id (fresh_world store) in
  run.1 = inr tt ∧
  db run.2 !! workflow_id = Some (finished_row wf "completed" answers) ∧
  length (List.filter is_post (events run.2)) = length (Workflow.tasks wf).
Proof.
  intros Hl Hans run. subst run.
  rewrite (execute_workflow_unfold env agents http store workflow_id wf Hl).
  rewrite <- (app_nil_r (Workflow.tasks wf)).
  rewrite (task_loop_answered _ _ _ [] answers [] _ Hans). cbn.
  split; [done|]. split; [by apply row_after_run|].
  rewrite !List.filter_app, length_app, answered_events_posts, app_nil_r. cbn. lia.
Qed.

(** X11.  When the tasks before some task are answered and that task's
    agent does not resolve, or the request to it fails with a
    [RequestError], [execute_workflow] returns normally and leaves the
    workflow "failed" with the answers of the tasks before as its results.
    No later task is posted; the task itself is posted only if its agent
    resolved. *)
Theorem aborted_workflow_fails (store : Store) (workflow_id : string)
    (wf : Workflow.t) (pre rest : list Task.t) (task : Task.t) (answers : list pyval) :
  store !! workflow_id = Some wf →
  Workflow.tasks wf = (pre ++ task :: rest)%list →
  Forall2 (λ task r, task_answer env agents http task = Some r) pre answers →
  let agent_url := AgentManager.get_agent_url env agents (Task.agent_id task) in
  truthy agent_url = false ∨
    (∃ msg, http agent_url (Task.task_details task) = Unreachable msg) →
  let run := execute_workflow env agents http workflow_id (fresh_world store) in
  run.1 = inr tt ∧
  db run.2 !! workflow_id = Some (finished_row wf "failed" answers) ∧
  length (List.filter is_post (events run.2)) =
    (length pre + (if truthy agent_url then 1 else 0))%nat.
Proof.
  intros Hl Htasks Hans agent_url Habort run. subst run agent_url.
  rewrite (execute_workflow_unfold env agents http store workflow_id wf Hl).
  rewrite Htasks, (task_loop_answered _ _ _ _ answers [] _ Hans).
  cbn [task_loop app].
  destruct (truthy (AgentManager.get_agent_url env agents (Task.agent_id task)))
    eqn:Hurl; cbn.
  - destruct Habort as [?|[msg Hpost]]; [done|].
    unfold bind at 1. unfold attempt, try_except, post, bind, emit, lift, log_event, ret.
    cbn. rewrite Hpost. cbn.
    split; [done|]. split; [by apply row_after_run|].
    rewrite <- !app_assoc. cbn.
    rewrite List.filter_app, length_app, answered_events_posts. cbn. lia.
  - split; [done|]. split; [by apply row_after_run|].
    rewrite List.filter_app, length_app, answered_events_posts. cbn. lia.
Qed.

(** X12.  When the tasks before some task are answered and the service of
    that task answers with an HTTP error status, or with a body that is not
    JSON, the exception is not caught: [execute_workflow] raises it, the
    workflow stays "running" with its results as they were, and no
    "workflow_finished" event is logged. *)
Theorem rejected_task_leaves_running (store : Store) (workflow_id : string)
    (wf : Workflow.t) (pre rest : list Task.t) (task : Task.t) (answers : list pyval)
    (e : exn) :
  store !! workflow_id = Some wf →
  Workflow.tasks wf = (pre ++ task :: rest)%list →
  Forall2 (λ task r, task_answer env agents http task = Some r) pre answers →
  let agent_url := AgentManager.get_agent_url env agents (Task.agent_id task) in
  truthy agent_url = true →
  uncaught (http agent_url (Task.task_details task)) = Some e →
  let run := execute_workflow env agents http workflow_id (fresh_world store) in
  run.1 = inl e ∧
  db run.2 !! workflow_id = Some (Workflow.with_status "running" wf) ∧
  List.filter is_finished_event (events run.2) = [].
Proof.
  intros Hl Htasks Hans agent_url Hurl Hunc run. subst run agent_url.
  rewrite (execute_workflow_unfold env agents http store workflow_id wf Hl).
  rewrite Htasks, (task_loop_answered _ _ _ _ answers [] _ Hans).
  cbn [task_loop app]. rewrite Hurl. cbn.
  unfold bind at 1. unfold attempt, try_except, post, bind, emit, lift, log_event, ret.
  cbn.
  destruct (http (AgentManager.get_agent_url env agents (Task.agent_id task))
              (Task.task_details task)) as [result|msg|msg|msg]; try done;
    injection Hunc as <-; cbn;
    (split; [done|]); (split; [by rewrite lookup_alter_eq, Hl|]);
    rewrite List.filter_app; cbn; by rewrite answered_events_no_finish.
Qed.

(** X13.  [execute_workflow] touches one row only, and of that row only the
    status and the results: every other workflow is left as it is, the id,
    name, tasks and owner of the workflow itself are kept, and for an id
    that is not in the store nothing happens at all. *)
Theorem execute_workflow_frame (store : Store) (workflow_id : string) :
  let run := execute_workflow env agents http workflow_id (fresh_world store) in
  (∀ k, k ≠ workflow_id → db run.2 !! k = store !! k) ∧
  (store !! workflow_id = None → run = (inr tt, fresh_world store)) ∧
  (∀ wf, store !! workflow_id = Some wf →
     ∃ wf', db run.2 !! workflow_id = Some wf' ∧
       Workflow.id wf' = Workflow.id wf ∧ Workflow.name wf' = Workflow.name wf ∧
       Workflow.tasks wf' = Workflow.tasks wf ∧
       Workflow.user_id wf' = Workflow.user_id wf).
Proof.
  intros run. subst run.
  destruct (store !! workflow_id) as [wf|] eqn:Hl.
  - rewrite (execute_workflow_unfold env agents http store workflow_id wf Hl).
    set (w1 := {| db := _; events := _ |}).
    destruct (task_loop_run env agents http workflow_id (Workflow.user_id wf)
                (Workflow.tasks wf) [] w1) as (during & _ & Hdb & _).
    destruct (task_loop _ _ _ _ _ _ _ _) as [[e|exit] w']; cbn in *; rewrite Hdb.
    + split; [intros k Hk; by rewrite lookup_alter_ne|]. split; [done|].
      intros wf0 [= <-]. rewrite lookup_alter_eq, Hl. eexists. split; [done|]. done.
    + split; [intros k Hk; by rewrite !lookup_alter_ne|]. split; [done|].
      intros wf0 [= <-]. rewrite !lookup_alter_eq, Hl. eexists. split; [done|]. done.
  - unfold execute_workflow, bind, read_db, fresh_world, _get_workflow_from_db. cbn.
    unfold pydict in *. rewrite Hl. cbn. done.
Qed.

End WorkflowOutcome.

Lemma answered_workflow_completes_witness :
  db (execute_workflow ∅ (worker_agents ∅) echo_http "w1"
        (fresh_world (one_workflow "pending" two_tasks))).2 !! "w1" =
    Some (finished_row
            {| Workflow.id := "w1"; Workflow.name := "demo";
               Workflow.tasks := two_tasks; Workflow.status := "pending";
               Workflow.results := Some []; Workflow.user_id := 5 |}
            "completed" [PDict [("ok", PInt 1)]; PDict [("ok", PInt 2)]]).
Proof.
  apply (answered_workflow_completes ∅ (worker_agents ∅) echo_http
           (one_workflow "pending" two_tasks) "w1"
           {| Workflow.id := "w1"; Workflow.name := "demo";
              Workflow.tasks := two_tasks; Workflow.status := "pending";
              Workflow.results := Some []; Workflow.user_id := 5 |}
           [PDict [("ok", PInt 1)]; PDict [("ok", PInt 2)]]).
  - vm_compute. reflexivity.
  - repeat constructor.
Defined.

Lemma aborted_workflow_fails_witness :
  db (execute_workflow ∅ (worker_agents ∅) echo_http "w1"
        (fresh_world (one_workflow "pending" ghost_tasks))).2 !! "w1" =
    Some (finished_row
            {| Workflow.id := "w1"; Workflow.name := "demo";
               Workflow.tasks := ghost_tasks; Workflow.status := "pending";
               Workflow.results := Some []; Workflow.user_id := 5 |}
            "failed" [PDict [("ok", PInt 1)]]).
Proof.
  apply (aborted_workflow_fails ∅ (worker_agents ∅) echo_http
           (one_workflow "pending" ghost_tasks) "w1"
           {| Workflow.id := "w1"; Workflow.name := "demo";
              Workflow.tasks := ghost_tasks; Workflow.status := "pending";
              Workflow.results := Some []; Workflow.user_id := 5 |}
           [ {| Task.agent_id := "seo_agent_001"; Task.task_details := PInt 1 |} ] []
           {| Task.agent_id := "ghost"; Task.task_details := PInt 2 |}
           [PDict [("ok", PInt 1)]]).
  - vm_compute. reflexivity.
  - reflexivity.
  - repeat constructor.
  - left. vm_compute. reflexivity.
Defined.

Lemma rejected_task_leaves_running_witness :
  (execute_workflow ∅ (worker_agents ∅) flaky_http "w1"
     (fresh_world (one_workflow "pending" two_tasks))).1 =
    inl (HTTPStatusError "500 Internal Server Error") ∧
  Workflow.status <$>
    db (execute_workflow ∅ (worker_agents ∅) flaky_http "w1"
          (fresh_world (one_workflow "pending" two_tasks))).2 !! "w1" = Some "running".
Proof.
  destruct (rejected_task_leaves_running ∅ (worker_agents ∅) flaky_http
              (one_workflow "pending" two_tasks) "w1"
              {| Workflow.id := "w1"; Workflow.name := "demo";
                 Workflow.tasks := two_tasks; Workflow.status := "pending";
                 Workflow.results := Some []; Workflow.user_id := 5 |}
              [ {| Task.agent_id := "seo_agent_001"; Task.task_details := PInt 1 |} ] []
              {| Task.agent_id := "lead_scoring_agent_001"; Task.task_details := PInt 2 |}
              [PDict [("ok", PInt 1)]]
              (HTTPStatusError "500 Internal Server Error"))
    as (Hraise & Hrow & _).
  - vm_compute. reflexivity.
  - reflexivity.
  - repeat constructor.
  - vm_compute. reflexivity.
  - reflexivity.
  - split; [exact Hraise|]. by rewrite Hrow.
Defined.

Lemma execute_workflow_frame_witness :
  execute_workflow ∅ (worker_agents ∅) echo_http "nobody"
    (fresh_world (one_workflow "pending" two_tasks)) =
    (inr tt, fresh_world (one_workflow "pending" two_tasks)).
Proof.
  apply (execute_workflow_frame ∅ (worker_agents ∅) echo_http
           (one_workflow "pending" two_tasks) "nobody").
  vm_compute. reflexivity.
Defined.

(** X14.  A workflow created under a fresh id by an owner other than 0 is
    stored as "pending" with empty results: its owner reads exactly that,
    another owner reads nothing, the other workflows are untouched and the
    id is handed to the queue once. *)
Theorem created_workflow_is_pending (store : Store) (workflow_id name : string)
    (tasks : list Task.t) (user_id : Z) :
  store !! workflow_id = None → user_id ≠ 0 →
  let run := create_and_dispatch_workflow workflow_id name tasks user_id
               (fresh_world store) in
  run.1 = inr workflow_id ∧
  get_workflow_status (db run.2) workflow_id user_id =
    Some {| info_id := workflow_id; info_name := name; info_status := "pending";
            info_results := [] |} ∧
  (∀ other, other ≠ 0 → other ≠ user_id →
            get_workflow_status (db run.2) workflow_id other = None) ∧
  (∀ k, k ≠ workflow_id → db run.2 !! k = store !! k) ∧
  List.filter is_dispatch (events run.2) = [Dispatched workflow_id].
Proof.
  intros Hfresh Hu run. subst run.
  unfold create_and_dispatch_workflow, bind, read_db, commit, log_event, emit, ret,
    fresh_world. cbn. rewrite Hfresh. cbn.
  split; [done|].
  unfold get_workflow_status, _get_workflow_from_db, user_id_given. cbn.
  rewrite lookup_insert_eq. cbn.
  split.
  { destruct (Z.eqb_spec user_id 0); [done|]. cbn. by rewrite Z.eqb_refl. }
  split.
  { intros other Ho Hne. destruct (Z.eqb_spec other 0); [done|]. cbn.
    by destruct (Z.eqb_spec user_id other). }
  split; [|done]. intros k Hk. by rewrite lookup_insert_ne.
Qed.

Lemma created_workflow_is_pending_witness :
  get_workflow_status
    (db (create_and_dispatch_workflow "w2" "second" two_tasks 7
           (fresh_world (one_workflow "completed" []))).2) "w2" 7 =
    Some {| info_id := "w2"; info_name := "second"; info_status := "pending";
            info_results := [] |}.
Proof.
  apply (created_workflow_is_pending (one_workflow "completed" []) "w2" "second"
           two_tasks 7).
  - vm_compute. reflexivity.
  - discriminate.
Defined.

(** X15.  [get_workflows_for_user] lists the id, name and status of exactly
    the workflows whose owner is the given one, for every owner id, 0
    included. *)
Theorem workflows_of_user (store : Store) (user_id : Z)
    (summary : string * string * string) :
  summary ∈ get_workflows_for_user store user_id ↔
  ∃ k wf, store !! k = Some wf ∧ Workflow.user_id wf = user_id ∧
          summary = (Workflow.id wf, Workflow.name wf, Workflow.status wf).
Proof.
  unfold get_workflows_for_user. rewrite list_elem_of_fmap. split.
  - intros ([k wf] & -> & Hin). apply list_elem_of_In, filter_In in Hin as [Hin Hu].
    apply list_elem_of_In, elem_of_map_to_list in Hin. cbn in Hu.
    apply Z.eqb_eq in Hu. by exists k, wf.
  - intros (k & wf & Hl & Hu & ->). exists (k, wf). split; [done|].
    apply list_elem_of_In, filter_In. split.
    + by apply list_elem_of_In, elem_of_map_to_list.
    + cbn. by apply Z.eqb_eq.
Qed.

(** ** The agent library *)

(** X16.  An agent's URL is [None] exactly when the id is not registered or
    is registered with empty metadata.  With any other metadata the lookup
    yields a value, the metadata's ["url"] or the generic runner's, also
    when the metadata has no ["url"] at all. *)
Theorem get_agent_url_none (env : gmap string string) (agents : gmap string pyd)
    (agent_id : string) :
  AgentManager.get_agent_url env agents agent_id = PNone ↔
  agents !! agent_id = None ∨ agents !! agent_id = Some [].
Proof.
  unfold AgentManager.get_agent_url, AgentManager.py_or. unfold pydict in *.
  destruct (agents !! agent_id) as [[|kv info]|] eqn:Hl.
  - split; [by right|done].
  - split; [|by intros [|]]. cbn [truthy negb].
    generalize (default PNone (dict_get "url" (kv :: info))).
    intros [|[]|z|s|[]|[]]; cbn; try done.
    + by destruct (z =? 0).
    + by destruct (String.eqb s "").
  - split; [by left|done].
Qed.

(** X17.  Registering is an upsert: the id is listed afterwards and maps to
    the new metadata, the count grows by one exactly when the id was new,
    and every other agent keeps its metadata and its URL. *)
Theorem register_agent_upsert (env : gmap string string) (agents : gmap string pyd)
    (agent_id : string) (metadata : pyd) :
  let agents' := AgentManager.register_agent agents agent_id metadata in
  AgentManager.get_agent agents' agent_id = Some metadata ∧
  AgentManager.list_agents agents' = {[agent_id]} ∪ AgentManager.list_agents agents ∧
  get_agent_count agents' =
    match AgentManager.get_agent agents agent_id with
    | Some _ => get_agent_count agents
    | None => S (get_agent_count agents)
    end ∧
  ∀ other, other ≠ agent_id →
    AgentManager.get_agent agents' other = AgentManager.get_agent agents other ∧
    AgentManager.get_agent_url env agents' other =
      AgentManager.get_agent_url env agents other.
Proof.
  unfold AgentManager.register_agent, AgentManager.get_agent, AgentManager.list_agents,
    get_agent_count, AgentManager.get_agent_url. unfold pydict in *. cbn.
  split; [by rewrite lookup_insert_eq|].
  split; [by rewrite dom_insert_L|].
  split.
  { rewrite map_size_insert. by destruct (agents !! agent_id). }
  intros other Hne. by rewrite lookup_insert_ne.
Qed.

Lemma list_agents_details_elem (agents : gmap string pyd) (e : pyd) :
  e ∈ list_agents_details agents ↔
  ∃ id md, agents !! id = Some md ∧ e = dict_set "id" (PStr id) md.
Proof.
  unfold list_agents_details. rewrite list_elem_of_fmap. split.
  - intros ([id md] & -> & Hin). apply elem_of_map_to_list in Hin. by exists id, md.
  - intros (id & md & Hl & ->). exists (id, md). split; [done|].
    by apply elem_of_map_to_list.
Qed.

(** X18.  The library shows every registered agent once, under its registry
    key: the ['id'] of an entry is the key whatever ['id'] the metadata
    carried, every other field is the metadata's, and the number of entries
    is the agent count. *)
Theorem library_shows_registry_keys (agents : gmap string pyd) :
  length (list_agents_details agents) = get_agent_count agents ∧
  (∀ id md, agents !! id = Some md →
     ∃ e, e ∈ list_agents_details agents ∧ dict_get "id" e = Some (PStr id) ∧
          ∀ k, k ≠ "id" → dict_get k e = dict_get k md) ∧
  (∀ e, e ∈ list_agents_details agents →
     ∃ id md, agents !! id = Some md ∧ dict_get "id" e = Some (PStr id) ∧
              ∀ k, k ≠ "id" → dict_get k e = dict_get k md).
Proof.
  split; [|split].
  - unfold list_agents_details, get_agent_count.
    by rewrite length_fmap, length_map_to_list.
  - intros id md Hl. exists (dict_set "id" (PStr id) md). split; [|split].
    + apply list_agents_details_elem. by exists id, md.
    + apply dict_get_set_eq.
    + intros k Hk. by apply dict_get_set_ne.
  - intros e (id & md & Hl & ->)%list_agents_details_elem. exists id, md.
    split; [done|]. split; [apply dict_get_set_eq|].
    intros k Hk. by apply dict_get_set_ne.
Qed.

(** X19.  The agents of a category are the entries of the library whose
    ["category"] is that string: the category is read from the metadata
    before the id is added, and adding the id does not change it. *)
Theorem category_filters_library (agents : gmap string pyd) (category : string) :
  list_agents_by_category agents category =
    List.filter (has_category category) (list_agents_details agents).
Proof.
  unfold list_agents_by_category, list_agents_details.
  induction (map_to_list agents) as [|[id md] l IH]; [done|]. cbn.
  assert (has_category category (dict_set "id" (PStr id) md) = has_category category md)
    as ->.
  { unfold has_category. by rewrite dict_get_set_ne. }
  destruct (has_category category md); cbn; by rewrite IH.
Qed.

(** X20.  In a worker process the seven agents registered by hand always
    resolve to their own URLs, whatever the definitions directory held for
    those ids and whatever the environment says, and every other id resolves
    as the definitions alone would have it. *)
Theorem worker_registry_resolves (env : gmap string string)
    (definitions : gmap string pyd) (agent_id : string) :
  AgentManager.get_agent_url env (worker_agents definitions) agent_id =
    match builtin_url agent_id with
    | Some url => PStr url
    | None => AgentManager.get_agent_url env definitions agent_id
    end.
Proof.
  unfold worker_agents, builtin_url, AgentManager.register_agent,
    AgentManager.get_agent_url. unfold pydict in *.
  repeat match goal with
         | |- context [String.eqb agent_id ?s] =>
             destruct (String.eqb_spec agent_id s) as [->|?];
             [rewrite ?lookup_insert_ne by done; rewrite lookup_insert_eq; reflexivity|]
         end.
  by rewrite !lookup_insert_ne by done.
Qed.

(** ** Messages between agents *)

Lemma delivered_nil (t : Team) (id : string) (o : EnhancedBaseAgent.t) :
  delivered t id [] o = o.
Proof.
  destruct o. unfold delivered. cbn.
  destruct (loaded t !! id); by rewrite app_nil_r.
Qed.

Lemma delivered_cons (t : Team) (id : string) (m : CollaborationMessage.t)
    (messages : list CollaborationMessage.t) (o : EnhancedBaseAgent.t) :
  delivered t id (m :: messages) o =
    delivered t id messages
      (match loaded t !! id with
       | Some _ => if decide (CollaborationMessage.to_agent m = id)
                   then EnhancedBaseAgent.receive_message m o else o
       | None => o
       end).
Proof.
  destruct o. unfold delivered, EnhancedBaseAgent.receive_message.
  destruct (loaded t !! id); [|done].
  destruct (decide (CollaborationMessage.to_agent m = id)) as [Hto|Hto].
  - rewrite filter_cons_True by done. cbn. by rewrite <- app_assoc.
  - by rewrite filter_cons_False by done.
Qed.

Lemma send_all_spec (t : Team) (messages : list CollaborationMessage.t) :
  ∀ bus h,
    (send_all t messages (bus, h)).1 = (bus ++ messages)%list ∧
    EnhancedBaseAgent.sets (send_all t messages (bus, h)).2 = EnhancedBaseAgent.sets h ∧
    ∀ id, EnhancedBaseAgent.objects (send_all t messages (bus, h)).2 !! id =
            delivered t id messages <$> EnhancedBaseAgent.objects h !! id.
Proof.
  induction messages as [|m messages IH]; intros bus h.
  - cbn. rewrite app_nil_r. split; [done|]. split; [done|]. intros id.
    destruct (EnhancedBaseAgent.objects h !! id) as [o|]; [|done]. cbn.
    by rewrite delivered_nil.
  - change (send_all t (m :: messages) (bus, h)) with
      (send_all t messages
         (send_message_to_agent t (CollaborationMessage.context m)
            (CollaborationMessage.message_id m) (CollaborationMessage.from_agent m)
            (CollaborationMessage.to_agent m) (CollaborationMessage.message_type m)
            (CollaborationMessage.payload m) (bus, h))).
    destruct (send_message_to_agent _ _ _ _ _ _ _ _) as [b1 h1] eqn:Hstep.
    unfold send_message_to_agent in Hstep. cbn [fst snd] in Hstep.
    replace {| CollaborationMessage.message_id := CollaborationMessage.message_id m;
               CollaborationMessage.from_agent := CollaborationMessage.from_agent m;
               CollaborationMessage.to_agent := CollaborationMessage.to_agent m;
               CollaborationMessage.message_type := CollaborationMessage.message_type m;
               CollaborationMessage.payload := CollaborationMessage.payload m;
               CollaborationMessage.context := CollaborationMessage.context m |}
      with m in Hstep by by destruct m.
    injection Hstep as <- <-.
    match goal with
    | |- context [send_all t messages (?b1, ?h1)] =>
        destruct (IH b1 h1) as (Hbus & Hsets & Hobj)
    end.
    rewrite Hbus, Hsets. split; [by rewrite <- app_assoc|].
    split; [by destruct (loaded t !! CollaborationMessage.to_agent m)|].
    intros id. rewrite Hobj. clear Hbus Hsets Hobj.
    destruct (decide (CollaborationMessage.to_agent m = id)) as [<-|Hne].
    + destruct (loaded t !! CollaborationMessage.to_agent m) eqn:Hl; cbn.
      * rewrite lookup_alter_eq.
        destruct (EnhancedBaseAgent.objects h !! _) as [o|]; [|done]. cbn.
        rewrite delivered_cons, Hl. by rewrite decide_True.
      * destruct (EnhancedBaseAgent.objects h !! _) as [o|]; [|done]. cbn.
        by rewrite delivered_cons, Hl.
    + assert (EnhancedBaseAgent.objects
                match loaded t !! CollaborationMessage.to_agent m with
                | Some _ =>
                    {| EnhancedBaseAgent.sets := EnhancedBaseAgent.sets h;
                       EnhancedBaseAgent.objects :=
                         alter (EnhancedBaseAgent.receive_message m)
                           (CollaborationMessage.to_agent m)
                           (EnhancedBaseAgent.objects h) |}
                | None => h
                end !! id = EnhancedBaseAgent.objects h !! id) as ->.
      { destruct (loaded t !! CollaborationMessage.to_agent m); [|done]. cbn.
        by rewrite lookup_alter_ne. }
      destruct (EnhancedBaseAgent.objects h !! id) as [o|]; [|done]. cbn.
      rewrite delivered_cons. destruct (loaded t !! id); [|done].
      by rewrite decide_False.
Qed.

(** X21.  Every message sent through a team is appended to the team's bus,
    whoever it names as sender.  An agent's queue receives, in the order of
    sending, exactly the messages addressed to its id when it is a loaded
    member of the team; a message to any other id stays on the bus and is
    delivered to nobody, without an error.  Nothing else about an agent
    changes. *)
Theorem team_mailboxes (t : Team) (messages bus : list CollaborationMessage.t)
    (h : EnhancedBaseAgent.Heap) :
  (send_all t messages (bus, h)).1 = (bus ++ messages)%list ∧
  EnhancedBaseAgent.sets (send_all t messages (bus, h)).2 = EnhancedBaseAgent.sets h ∧
  ∀ id, EnhancedBaseAgent.objects (send_all t messages (bus, h)).2 !! id =
          delivered t id messages <$> EnhancedBaseAgent.objects h !! id.
Proof. exact (send_all_spec t messages bus h). Qed.

Lemma broadcast_to_team_spec (uuid4 : nat → string) (self : string)
    (o : EnhancedBaseAgent.t) (message_type : string) (payload : pyd)
    (sets : gmap nat (gset string)) :
  match EnhancedBaseAgent.broadcast_to_team uuid4 self o message_type payload sets with
  | inl e => EnhancedBaseAgent.in_team o = false ∧ e = Raised "Agent not in a team"
  | inr messages =>
      EnhancedBaseAgent.in_team o = true ∧
      CollaborationMessage.to_agent <$> messages ≡ₚ
        elements (default ∅ (sets !! EnhancedBaseAgent.team_members o) ∖ {[self]}) ∧
      Forall (λ m, CollaborationMessage.from_agent m = self ∧
                   CollaborationMessage.message_type m = message_type ∧
                   CollaborationMessage.payload m = payload ∧
                   CollaborationMessage.context m = EnhancedBaseAgent.shared_context o)
             messages ∧
      ∀ i m, messages !! i = Some m → CollaborationMessage.message_id m = uuid4 i
  end.
Proof.
  unfold EnhancedBaseAgent.broadcast_to_team.
  destruct (EnhancedBaseAgent.in_team o); cbn; [|done].
  set (s := default ∅ (sets !! EnhancedBaseAgent.team_members o)).
  split; [done|]. split; [|split].
  - rewrite fmap_imap.
    rewrite (imap_ext _ (const id)) by done.
    rewrite imap_const, list_fmap_id.
    apply NoDup_Permutation.
    + apply NoDup_filter, NoDup_elements.
    + apply NoDup_elements.
    + intros x. rewrite list_elem_of_filter, !elem_of_elements, elem_of_difference,
        not_elem_of_singleton. tauto.
  - apply Forall_lookup. intros i m. rewrite list_lookup_imap.
    destruct (filter _ _ !! i); [|done]. cbn. by intros [= <-].
  - intros i m. rewrite list_lookup_imap.
    destruct (filter _ _ !! i); [|done]. cbn. by intros [= <-].
Qed.

(** X22.  A broadcast fails with "Agent not in a team" exactly when the
    agent's current team is unset or the empty string.  Otherwise it returns
    one message for every member of the agent's team set other than itself
    and none for itself, each from the agent, with the given type and
    payload, the agent's shared context and its own fresh id.  The messages
    are only returned: no queue receives them. *)
Theorem broadcast_reaches_others (uuid4 : nat → string) (self : string)
    (o : EnhancedBaseAgent.t) (message_type : string) (payload : pyd)
    (sets : gmap nat (gset string)) :
  match EnhancedBaseAgent.broadcast_to_team uuid4 self o message_type payload sets with
  | inl e => EnhancedBaseAgent.in_team o = false ∧ e = Raised "Agent not in a team"
  | inr messages =>
      EnhancedBaseAgent.in_team o = true ∧
      CollaborationMessage.to_agent <$> messages ≡ₚ
        elements (default ∅ (sets !! EnhancedBaseAgent.team_members o) ∖ {[self]}) ∧
      Forall (λ m, CollaborationMessage.from_agent m = self ∧
                   CollaborationMessage.message_type m = message_type ∧
                   CollaborationMessage.payload m = payload ∧
                   CollaborationMessage.context m = EnhancedBaseAgent.shared_context o)
             messages ∧
      ∀ i m, messages !! i = Some m → CollaborationMessage.message_id m = uuid4 i
  end.
Proof. exact (broadcast_to_team_spec uuid4 self o message_type payload sets). Qed.

(** X23.  [join_team] keeps the caller's set, not a copy, and [leave_team]
    empties that set in place.  So when two agents joined a team with the
    same set, as the tests and [Team.execute] pass it, and one of them
    leaves, the other is still in the team but its team set is empty: a
    broadcast that reached the first agent before now reaches nobody. *)
Theorem leave_team_empties_shared_set (uuid4 : nat → string)
    (h : EnhancedBaseAgent.Heap) (a b team_id : string) (r : nat) (s : gset string)
    (oa ob : EnhancedBaseAgent.t) (message_type : string) (payload : pyd) :
  a ≠ b →
  EnhancedBaseAgent.objects h !! a = Some oa →
  EnhancedBaseAgent.objects h !! b = Some ob →
  EnhancedBaseAgent.sets h !! r = Some s → a ∈ s → team_id ≠ "" →
  let joined := EnhancedBaseAgent.join_team b team_id r
                  (EnhancedBaseAgent.join_team a team_id r h) in
  let left := EnhancedBaseAgent.leave_team a joined in
  (∃ ob1 messages,
     EnhancedBaseAgent.objects joined !! b = Some ob1 ∧
     EnhancedBaseAgent.broadcast_to_team uuid4 b ob1 message_type payload
       (EnhancedBaseAgent.sets joined) = inr messages ∧
     a ∈ CollaborationMessage.to_agent <$> messages) ∧
  (∃ ob2,
     EnhancedBaseAgent.objects left !! b = Some ob2 ∧
     EnhancedBaseAgent.current_team ob2 = Some team_id ∧
     EnhancedBaseAgent.broadcast_to_team uuid4 b ob2 message_type payload
       (EnhancedBaseAgent.sets left) = inr []).
Proof.
  intros Hab Ha Hb Hr Has Hteam joined left.
  set (ob1 := {| EnhancedBaseAgent.current_team := Some team_id;
                 EnhancedBaseAgent.team_members := r;
                 EnhancedBaseAgent.shared_context := EnhancedBaseAgent.shared_context ob;
                 EnhancedBaseAgent.message_queue := EnhancedBaseAgent.message_queue ob |}).
  assert (EnhancedBaseAgent.in_team ob1 = true) as Hin.
  { unfold EnhancedBaseAgent.in_team. cbn. by destruct (String.eqb_spec team_id ""). }
  assert (EnhancedBaseAgent.objects joined !! b = Some ob1) as Hb1.
  { subst joined. unfold EnhancedBaseAgent.join_team. cbn.
    rewrite lookup_alter_eq, lookup_alter_ne by done. by rewrite Hb. }
  assert (∃ oa1, EnhancedBaseAgent.objects joined !! a = Some oa1 ∧
                 EnhancedBaseAgent.team_members oa1 = r) as (oa1 & Ha1 & Hr1).
  { subst joined. unfold EnhancedBaseAgent.join_team. cbn.
    rewrite lookup_alter_ne, lookup_alter_eq by done. rewrite Ha. cbn. by eexists. }
  split.
  - pose proof (broadcast_to_team_spec uuid4 b ob1 message_type payload
                  (EnhancedBaseAgent.sets joined)) as Hspec.
    destruct (EnhancedBaseAgent.broadcast_to_team uuid4 b ob1 message_type payload
                (EnhancedBaseAgent.sets joined)) as [e|messages] eqn:Hbc.
    { destruct Hspec as [Hout _]. by rewrite Hin in Hout. }
    destruct Hspec as (_ & Hto & _). exists ob1, messages.
    split; [done|]. split; [done|]. rewrite Hto.
    apply elem_of_elements, elem_of_difference. cbn. rewrite Hr. cbn.
    split; [done|]. by apply not_elem_of_singleton.
  - exists ob1. subst left. unfold EnhancedBaseAgent.leave_team. rewrite Ha1, Hr1. cbn.
    rewrite lookup_insert_ne by done. split; [done|]. split; [done|].
    unfold EnhancedBaseAgent.broadcast_to_team. rewrite Hin. cbn.
    rewrite lookup_alter_eq, Hr. cbn. by rewrite elements_empty.
Qed.

Lemma leave_team_empties_shared_set_witness :
  ∃ ob2,
    EnhancedBaseAgent.objects
      (EnhancedBaseAgent.leave_team "a"
         (EnhancedBaseAgent.join_team "b" "t1" 0
            (EnhancedBaseAgent.join_team "a" "t1" 0 two_agents))) !! "b" = Some ob2 ∧
    EnhancedBaseAgent.current_team ob2 = Some "t1" ∧
    EnhancedBaseAgent.broadcast_to_team (λ _, "m") "b" ob2 "notification" []
      (EnhancedBaseAgent.sets
         (EnhancedBaseAgent.leave_team "a"
            (EnhancedBaseAgent.join_team "b" "t1" 0
               (EnhancedBaseAgent.join_team "a" "t1" 0 two_agents)))) = inr [].
Proof.
  apply (leave_team_empties_shared_set (λ _, "m") two_agents "a" "b" "t1" 0
           {[ "a"; "b" ]} (idle_agent 1) (idle_agent 2) "notification" []).
  - discriminate.
  - vm_compute. reflexivity.
  - vm_compute. reflexivity.
  - vm_compute. reflexivity.
  - set_solver.
  - discriminate.
Defined.

(** ** Unregistering an agent *)

(** X24.  Once an agent is unregistered, looking it up raises "Agent not
    found", every other agent is found as before, and no team that lists the
    agent as a required member can be built any more: the constructor fails
    with the [ValueError] of a member that the registry lacks. *)
Theorem unregistered_agent_breaks_teams (cfg : TeamConfiguration)
    (registry : gmap string Agent) (m : TeamMember) :
  m ∈ members cfg → required m = true →
  let registry' := unregister_agent registry (agent_id m) in
  AgentRegistry.get_agent registry' (agent_id m) =
    inl (ValueError ("Agent not found: " +:+ agent_id m)) ∧
  (∀ other, other ≠ agent_id m →
     AgentRegistry.get_agent registry' other = AgentRegistry.get_agent registry other) ∧
  ∃ missing, registry' !! missing = None ∧
             new_team cfg registry' = inl (ValueError ("Agent not found: " +:+ missing)).
Proof.
  intros Hin Hreq registry'. subst registry'. unfold unregister_agent.
  unfold AgentRegistry.get_agent. unfold Agent in *.
  split; [by rewrite lookup_delete_eq|].
  split; [intros other Hne; by rewrite lookup_delete_ne|].
  pose proof (new_team_loads_aux cfg (delete (agent_id m) registry)) as Hspec.
  unfold Agent in *.
  destruct (new_team cfg (delete (agent_id m) registry)) as [e|t].
  - destruct Hspec as (pre & m' & post & _ & _ & _ & Hnone & ->). by exists (agent_id m').
  - destruct Hspec as (_ & Hall & _). rewrite Forall_forall in Hall.
    destruct (Hall m Hin Hreq) as [a Ha]. by rewrite lookup_delete_eq in Ha.
Qed.

Lemma unregistered_agent_breaks_teams_witness :
  ∃ missing,
    unregister_agent (loaded pipeline_scenario) "B" !! missing = None ∧
    new_team (config pipeline_scenario)
      (unregister_agent (loaded pipeline_scenario) "B") =
      inl (ValueError ("Agent not found: " +:+ missing)).
Proof.
  apply (unregistered_agent_breaks_teams (config pipeline_scenario)
           (loaded pipeline_scenario) (member "B" 1 true)).
  - cbn. set_solver.
  - reflexivity.
Defined.
